(** * Speech-to-text batch transcriber (ios.py): a shallow embedding

    The program transcribes audio files, rewrites romanised Hindi words with
    a lexicon, detects the language, translates and writes one transcript
    per input.  Python strings are sequences of code points ([pystr]); the
    module-level dictionary [HINGLISH_TO_HINDI] and the working directory
    live in an explicit [world] that every function threads through a small
    state-and-exception monad.  [os.path] is [posixpath].

    Library behaviour that the program relies on but that is not written in
    ios.py (Unicode tables beyond ASCII, regular-expression syntax beyond
    literals, [.] and [\b], the remote services, the file system) enters
    through the classes [PyRuntime], [Collaborators] and [Confidence]. *)

From Stdlib Require Import Ascii String.
From Stdlib Require Import List NArith ZArith Bool Lia Arith.
Import ListNotations.

Set Implicit Arguments.
Set Warnings "-register-all".

(** ** Python strings *)

Definition pystr := list N.

Definition u (s : string) : pystr :=
  map N_of_ascii (list_ascii_of_string s).

Fixpoint pystr_eqb (a b : pystr) : bool :=
  match a, b with
  | [], [] => true
  | x :: a', y :: b' => N.eqb x y && pystr_eqb a' b'
  | _, _ => false
  end.

Definition is_ascii (c : N) : bool := N.ltb c 128.

Definition is_ascii_upper (c : N) : bool := N.leb 65 c && N.leb c 90.
Definition is_ascii_lower (c : N) : bool := N.leb 97 c && N.leb c 122.
Definition is_ascii_digit (c : N) : bool := N.leb 48 c && N.leb c 57.

Definition is_ascii_alnum (c : N) : bool :=
  is_ascii_upper c || is_ascii_lower c || is_ascii_digit c.

Definition ascii_lower (c : N) : N :=
  if is_ascii_upper c then (c + 32)%N else c.

(** ASCII code points on which [str.isspace] holds: TAB..CR, FS..US, SPACE. *)
Definition is_ascii_space (c : N) : bool :=
  (N.leb 9 c && N.leb c 13) || (N.leb 28 c && N.leb c 32).

(** Text that the codec utf-8 refuses: the surrogates U+D800..U+DFFF. *)
Definition is_surrogate (c : N) : bool := N.leb 55296 c && N.leb c 57343.

Definition utf8_encodable (s : pystr) : bool :=
  forallb (fun c => negb (is_surrogate c)) s.

(** ** Exceptions and results *)

Inductive exn : Type :=
| TypeError
| AttributeError
| FileNotFoundError
| JSONDecodeError
| ReError
| UnknownValueError
| RequestError
| UnicodeEncodeError
| OSError
| OtherError.

Inductive outcome (A : Type) : Type :=
| Ok (a : A)
| Raise (e : exn).

Arguments Ok {A} a.
Arguments Raise {A} e.

Definition outcome_map {A B : Type} (f : A -> B) (r : outcome A) : outcome B :=
  match r with
  | Ok a => Ok (f a)
  | Raise e => Raise e
  end.

(** ** What the interpreter and its libraries supply

    [ext_isalnum] and [ext_isspace] are [str.isalnum] and [str.isspace] on
    code points from 128 up; [ext_ci_match p t] tells whether, under
    [re.IGNORECASE], the pattern literal [p] matches the text character [t]
    when one of them is not ASCII; [ext_lower] is [str.lower] on strings
    that hold a non-ASCII character; [ext_re_sub] is [re.sub] on patterns
    and templates outside the fragment written out below.  [ext_ci_word]
    records that a character matching an ASCII letter or digit is itself
    alphanumeric (in CPython these are the letters U+0130, U+0131, U+017F
    and U+212A). *)

Class PyRuntime : Type := {
  ext_isalnum : N -> bool;
  ext_isspace : N -> bool;
  ext_ci_match : N -> N -> bool;
  ext_lower : pystr -> pystr;
  ext_re_sub : pystr -> pystr -> pystr -> outcome pystr;
  ext_ci_word : forall p t,
      is_ascii_alnum p = true -> is_ascii t = false ->
      ext_ci_match p t = true -> ext_isalnum t = true
}.

(** ** os.path (posixpath and genericpath) *)

Definition sep : N := 47.
Definition extsep : N := 46.

(** [s.rfind(c)] with running index [i]: the highest index, or -1. *)
Fixpoint rfind_from (c : N) (s : pystr) (i : Z) : Z :=
  match s with
  | [] => (-1)%Z
  | x :: s' =>
      let r := rfind_from c s' (i + 1)%Z in
      if Z.leb 0 r then r else if N.eqb x c then i else (-1)%Z
  end.

Definition rfind (s : pystr) (c : N) : Z := rfind_from c s 0%Z.

(** [p[i:j]], [p[:j]] and [p[i:]] for non-negative bounds. *)
Definition slice_to (p : pystr) (j : Z) : pystr := firstn (Z.to_nat j) p.
Definition slice_from (p : pystr) (i : Z) : pystr := skipn (Z.to_nat i) p.
Definition slice (p : pystr) (i j : Z) : pystr :=
  slice_to (slice_from p i) (j - i)%Z.

(** The [while filenameIndex < dotIndex] loop of [genericpath._splitext]:
    [true] when it returns from inside the loop (a character that is not a
    dot stands before the last dot). *)
Fixpoint splitext_loop (p : pystr) (filenameIndex : Z) (n : nat) : bool :=
  match n with
  | O => false
  | S n' =>
      if negb (pystr_eqb (slice p filenameIndex (filenameIndex + 1)%Z) [extsep])
      then true
      else splitext_loop p (filenameIndex + 1)%Z n'
  end.

Definition splitext (p : pystr) : pystr * pystr :=
  let sepIndex := rfind p sep in
  let dotIndex := rfind p extsep in
  if Z.ltb sepIndex dotIndex then
    let filenameIndex := (sepIndex + 1)%Z in
    if splitext_loop p filenameIndex (Z.to_nat (dotIndex - filenameIndex))
    then (slice_to p dotIndex, slice_from p dotIndex)
    else (p, [])
  else (p, []).

Definition basename (p : pystr) : pystr :=
  let i := (rfind p sep + 1)%Z in slice_from p i.

Definition startswith_sep (b : pystr) : bool :=
  match b with
  | c :: _ => N.eqb c sep
  | [] => false
  end.

Definition endswith_sep (a : pystr) : bool :=
  match rev a with
  | c :: _ => N.eqb c sep
  | [] => false
  end.

(** [os.path.join(a, b)]. *)
Definition join (a b : pystr) : pystr :=
  if startswith_sep b then b
  else match a with
       | [] => b
       | _ => if endswith_sep a then a ++ b else a ++ sep :: b
       end.

(** ** str methods *)

Section Runtime.

Context {RT : PyRuntime}.

Definition str_lower (s : pystr) : pystr :=
  if forallb is_ascii s then map ascii_lower s else ext_lower s.

Definition isspace (c : N) : bool :=
  if is_ascii c then is_ascii_space c else ext_isspace c.

Definition isalnum (c : N) : bool :=
  if is_ascii c then is_ascii_alnum c else ext_isalnum c.

(** [s.split()]: the maximal runs of characters that are not whitespace.
    [cur] is the run being read, reversed. *)
Fixpoint split_ws (s : pystr) (cur : pystr) : list pystr :=
  match s with
  | [] => match cur with [] => [] | _ => [rev cur] end
  | c :: s' =>
      if isspace c
      then match cur with
           | [] => split_ws s' []
           | _ => rev cur :: split_ws s' []
           end
      else split_ws s' (c :: cur)
  end.

Definition str_split (s : pystr) : list pystr := split_ws s [].

(** ** File classifier *)

Definition SUPPORTED_FORMATS : list pystr :=
  [u ".m4a"; u ".mp3"; u ".webm"; u ".mp4"; u ".mpga"; u ".wav"; u ".mpeg"].

Definition is_supported_format (file_path : pystr) : bool :=
  existsb (pystr_eqb (str_lower (snd (splitext file_path)))) SUPPORTED_FORMATS.

End Runtime.

(** ** JSON values, as [json.loads] builds them *)

Inductive json : Type :=
| JNull
| JBool (b : bool)
| JNum (n : Z)
| JStr (s : pystr)
| JArr (l : list json)
| JObj (fields : list (pystr * json)).

(** ** The re module, as far as [preprocess_text] uses it

    Patterns are modelled for literals, [.], [\b] and escaped punctuation.
    A [(] that no [)] follows and a [)] at top level are errors in every
    version of the parser; all other syntax is left to [ext_re_sub]. *)

Inductive atom : Type :=
| ALit (c : N)
| AAny
| ABoundary.

Inductive syntax (A : Type) : Type :=
| Modelled (a : A)
| SyntaxError
| Unmodelled.

Arguments Modelled {A} a.
Arguments SyntaxError {A}.
Arguments Unmodelled {A}.

Definition syntax_map {A B : Type} (f : A -> B) (r : syntax A) : syntax B :=
  match r with
  | Modelled a => Modelled (f a)
  | SyntaxError => SyntaxError
  | Unmodelled => Unmodelled
  end.

Definition backslash : N := 92.

(** The characters [[ { * + ? ^ $ |]: classes, repeats, anchors, branches. *)
Definition is_unmodelled_special (c : N) : bool :=
  existsb (N.eqb c) [91; 123; 42; 43; 63; 94; 36; 124]%N.

Fixpoint parse_pattern (s : pystr) : syntax (list atom) :=
  match s with
  | [] => Modelled []
  | c :: s' =>
      if N.eqb c backslash then
        match s' with
        | [] => SyntaxError
        | d :: s'' =>
            if N.eqb d 98 then syntax_map (cons ABoundary) (parse_pattern s'')
            else if is_ascii_alnum d then Unmodelled
            else syntax_map (cons (ALit d)) (parse_pattern s'')
        end
      else if N.eqb c 46 then syntax_map (cons AAny) (parse_pattern s')
      else if N.eqb c 40 then
        if existsb (N.eqb 41) s' then Unmodelled else SyntaxError
      else if N.eqb c 41 then SyntaxError
      else if is_unmodelled_special c then Unmodelled
      else syntax_map (cons (ALit c)) (parse_pattern s')
  end.

(** Replacement templates: a string without backslash stands for itself;
    [\\] is a backslash; a backslash before a character that is neither an
    ASCII letter nor a digit is kept with it; a backslash at the end is an
    error; escapes by letter or digit are left to [ext_re_sub]. *)
Fixpoint expand_template (r : pystr) : syntax pystr :=
  match r with
  | [] => Modelled []
  | c :: r' =>
      if N.eqb c backslash then
        match r' with
        | [] => SyntaxError
        | d :: r'' =>
            if N.eqb d backslash then syntax_map (cons backslash) (expand_template r'')
            else if is_ascii_alnum d then Unmodelled
            else syntax_map (fun t => backslash :: d :: t) (expand_template r'')
        end
      else syntax_map (cons c) (expand_template r')
  end.

Section Regex.

Context {RT : PyRuntime}.

(** [\w] for str patterns. *)
Definition is_word (c : N) : bool := isalnum c || N.eqb c 95.

Definition word_before (prev : option N) : bool :=
  match prev with
  | Some c => is_word c
  | None => false
  end.

Definition word_here (s : pystr) : bool :=
  match s with
  | c :: _ => is_word c
  | [] => false
  end.

(** [\b]: exactly one of the two neighbours is a word character. *)
Definition at_boundary (prev : option N) (s : pystr) : bool :=
  xorb (word_before prev) (word_here s).

(** A pattern literal against a text character under [re.IGNORECASE]. *)
Definition ci_match (p t : N) : bool :=
  if is_ascii p && is_ascii t
  then N.eqb (ascii_lower p) (ascii_lower t)
  else ext_ci_match p t.

(** Match the atoms at the current position ([prev] is the character just
    before it); the result is the number of characters consumed. *)
Fixpoint match_atoms (p : list atom) (prev : option N) (s : pystr) : option nat :=
  match p with
  | [] => Some O
  | ABoundary :: p' =>
      if at_boundary prev s then match_atoms p' prev s else None
  | ALit c :: p' =>
      match s with
      | t :: s' =>
          if ci_match c t then option_map S (match_atoms p' (Some t) s') else None
      | [] => None
      end
  | AAny :: p' =>
      match s with
      | t :: s' =>
          if N.eqb t 10 then None else option_map S (match_atoms p' (Some t) s')
      | [] => None
      end
  end.

(** The substitution loop of [re.sub]: scan left to right, replace each
    match, resume after it.  [skip] counts the characters of the current
    match still to pass over.  An empty match is replaced once, then the
    search advances by one character. *)
Fixpoint sub_loop (p : list atom) (repl : pystr) (prev : option N)
         (s : pystr) (skip : nat) : pystr :=
  match s with
  | [] =>
      match skip, match_atoms p prev [] with
      | O, Some _ => repl
      | _, _ => []
      end
  | c :: s' =>
      match skip with
      | S k => sub_loop p repl (Some c) s' k
      | O =>
          match match_atoms p prev s with
          | Some O => repl ++ c :: sub_loop p repl (Some c) s' 0
          | Some (S k) => repl ++ sub_loop p repl (Some c) s' k
          | None => c :: sub_loop p repl (Some c) s' 0
          end
      end
  end.

(** [re.sub(pattern, repl, text, flags=re.IGNORECASE)] for a str [repl]. *)
Definition re_sub_str (pattern repl text : pystr) : outcome pystr :=
  match parse_pattern pattern with
  | SyntaxError => Raise ReError
  | Unmodelled => ext_re_sub pattern repl text
  | Modelled atoms =>
      match expand_template repl with
      | SyntaxError => Raise ReError
      | Unmodelled => ext_re_sub pattern repl text
      | Modelled r => Ok (sub_loop atoms r None text 0)
      end
  end.

(** The same call for any value found in the lexicon: the pattern is
    compiled first, then a replacement that is not a str is refused. *)
Definition re_sub (pattern : pystr) (repl : json) (text : pystr) : outcome pystr :=
  match repl with
  | JStr r => re_sub_str pattern r text
  | _ =>
      match re_sub_str pattern [] text with
      | Raise e => Raise e
      | Ok _ => Raise TypeError
      end
  end.

(** ** Text normaliser *)

(** A dict keeps its items in insertion order. *)
Definition dict := list (pystr * json).

Fixpoint preprocess_items (items : dict) (text : pystr) : outcome pystr :=
  match items with
  | [] => Ok text
  | (hinglish, hindi) :: rest =>
      match re_sub (u "\b" ++ hinglish ++ u "\b") hindi text with
      | Ok text' => preprocess_items rest text'
      | Raise e => Raise e
      end
  end.

Definition preprocess_text (HINGLISH_TO_HINDI : dict) (text : pystr) : outcome pystr :=
  preprocess_items HINGLISH_TO_HINDI text.

End Regex.

(** ** The world and the collaborators *)

Inductive level : Type := INFO | WARNING | ERROR.

Inductive event : Type :=
| Recognize (file_path : pystr)
| Detect (text : pystr)
| Translate (text source_lang : pystr)
| Log (l : level).

(** [cwd] maps the names that exist in the working directory to their
    content; [trace] is the history of collaborator calls and log records,
    latest first. *)
Record world : Type := {
  HINGLISH_TO_HINDI : dict;
  cwd : list (pystr * pystr);
  trace : list event
}.

(** A directory as [os.walk] lists it: sub-directories, then other files. *)
Inductive tree : Type :=
| Dir (dirs : list (pystr * tree)) (files : list pystr).

(** [open_dataset] gives the lines of the lexicon file, each with the
    result of [json.loads] on it ([None] when the line does not parse), or
    [None] when the file cannot be opened.  The remote services see the
    history, so they may answer differently from one call to the next;
    [recognize_google] stands for opening the audio file, recording it and
    calling the service; [new_translator] is the construction
    [Translator()]; [open_w] tells whether a file can be opened for
    writing and [write_ok h name buf data] whether the device takes the
    write of [data] to the file [name] that holds [buf].  The inputs
    ([isfile], [listdir]) do not change during a run: the program only
    creates transcripts, which are not inputs. *)
Class Collaborators : Type := {
  isfile : pystr -> bool;
  listdir : pystr -> option tree;
  open_dataset : pystr -> option (list (option json));
  recognize_google : list event -> pystr -> outcome pystr;
  detect : list event -> pystr -> outcome pystr;
  new_translator : list event -> outcome unit;
  translate : list event -> pystr -> pystr -> outcome pystr;
  open_w : list event -> pystr -> bool;
  write_ok : list event -> pystr -> pystr -> pystr -> bool
}.

(** Confidence scores and their rendering by the format [.2f]. *)
Class Confidence : Type := {
  score : Type;
  format_2f : score -> pystr
}.

(** ** The monad: state over [world], with exceptions *)

Definition M (A : Type) : Type := world -> outcome A * world.

Definition ret {A : Type} (a : A) : M A := fun w => (Ok a, w).

Definition bind {A B : Type} (m : M A) (k : A -> M B) : M B :=
  fun w =>
    match m w with
    | (Ok a, w') => k a w'
    | (Raise e, w') => (Raise e, w')
    end.

Definition raise {A : Type} (e : exn) : M A := fun w => (Raise e, w).

Definition try_except {A : Type} (m : M A) (handler : exn -> M A) : M A :=
  fun w =>
    match m w with
    | (Ok a, w') => (Ok a, w')
    | (Raise e, w') => handler e w'
    end.

Definition lift {A : Type} (r : outcome A) : M A := fun w => (r, w).

Declare Scope py_scope.
Delimit Scope py_scope with py.
Notation "x <- c ;; k" := (bind c (fun x => k))
  (at level 100, c at next level, right associativity) : py_scope.
Notation "c ;;; k" := (bind c (fun _ => k))
  (at level 100, right associativity) : py_scope.
Open Scope py_scope.

Definition emit (e : event) : M unit :=
  fun w => (Ok tt, {| HINGLISH_TO_HINDI := HINGLISH_TO_HINDI w;
                      cwd := cwd w;
                      trace := e :: trace w |}).

Definition logging (l : level) : M unit := emit (Log l).

Definition get_trace : M (list event) := fun w => (Ok (trace w), w).

Definition get_lexicon : M dict := fun w => (Ok (HINGLISH_TO_HINDI w), w).

Fixpoint dict_set (d : dict) (k : pystr) (v : json) : dict :=
  match d with
  | [] => [(k, v)]
  | (k', v') :: d' =>
      if pystr_eqb k' k then (k', v) :: d' else (k', v') :: dict_set d' k v
  end.

Definition set_item (k : pystr) (v : json) : M unit :=
  fun w => (Ok tt, {| HINGLISH_TO_HINDI := dict_set (HINGLISH_TO_HINDI w) k v;
                      cwd := cwd w;
                      trace := trace w |}).

Fixpoint lookup {V : Type} (k : pystr) (d : list (pystr * V)) : option V :=
  match d with
  | [] => None
  | (k', v) :: d' => if pystr_eqb k' k then Some v else lookup k d'
  end.

Definition path_exists (name : pystr) : M bool :=
  fun w => (Ok (match lookup name (cwd w) with Some _ => true | None => false end), w).

Fixpoint store {V : Type} (d : list (pystr * V)) (k : pystr) (v : V) : list (pystr * V) :=
  match d with
  | [] => [(k, v)]
  | (k', v') :: d' =>
      if pystr_eqb k' k then (k', v) :: d' else (k', v') :: store d' k v
  end.

Definition write_file (name content : pystr) : M unit :=
  fun w => (Ok tt, {| HINGLISH_TO_HINDI := HINGLISH_TO_HINDI w;
                      cwd := store (cwd w) name content;
                      trace := trace w |}).

Fixpoint for_each {A : Type} (l : list A) (body : A -> M unit) : M unit :=
  match l with
  | [] => ret tt
  | a :: l' => body a ;;; for_each l' body
  end.

(** ** The program *)

Section Program.

Context {RT : PyRuntime} {CO : Collaborators} {CF : Confidence}.

(** [d.get(key, default)] on the value [d]; only a dict has [get]. *)
Definition json_get (d : json) (key : pystr) (default : json) : outcome json :=
  match d with
  | JObj fields =>
      Ok (match lookup key fields with Some v => v | None => default end)
  | _ => Raise AttributeError
  end.

(** [s.lower()] on the value [s]; only a str has [lower]. *)
Definition json_lower (s : json) : outcome pystr :=
  match s with
  | JStr h => Ok (str_lower h)
  | _ => Raise AttributeError
  end.

(** The body of the [for line in f] loop. *)
Definition load_line (line : option json) : M unit :=
  match line with
  | None => raise JSONDecodeError
  | Some data =>
      translation <- lift (json_get data (u "translation") (JObj [])) ;;
      hinglish <- lift (json_get translation (u "hi_ng") (JStr [])) ;;
      hindi <- lift (json_get translation (u "en") (JStr [])) ;;
      key <- lift (json_lower hinglish) ;;
      set_item key hindi
  end.

Definition load_hinglish_mapping (file_path : pystr) : M unit :=
  match open_dataset file_path with
  | None => raise FileNotFoundError
  | Some lines => for_each lines load_line
  end.

Definition is_valid_file (file_path : pystr) : bool := isfile file_path.

Definition newline : N := 10.

(** One [f.write] of the confidence loop, appended to the buffer, when
    the write succeeds. *)
Definition write_confidence (buf : pystr) (wc : pystr * score) : pystr :=
  buf ++ newline :: u "  - " ++ fst wc ++ u " (" ++ format_2f (snd wc) ++ u ")".

(** What the [with open(...)] block writes, in order, when every write
    succeeds. *)
Definition transcript_content (base_filename transcript : pystr)
           (confidence_scores : option (list score)) : pystr :=
  let buf := base_filename ++ u ":" ++ [newline] in
  let buf := buf ++ transcript in
  match confidence_scores with
  | None | Some [] => buf
  | Some scores =>
      fold_left write_confidence (combine (str_split transcript) scores) buf
  end.

Definition output_path (file_path : pystr) : pystr :=
  let base_filename := fst (splitext (basename file_path)) in
  base_filename ++ u "-transcript.txt".

(** [f.write(data)] on the file opened as [name]: the text is encoded
    and appended, or the call raises and nothing is appended. *)
Definition f_write (name data : pystr) : M unit :=
  fun w =>
    let buf := match lookup name (cwd w) with Some b => b | None => [] end in
    if negb (utf8_encodable data) then (Raise UnicodeEncodeError, w)
    else if write_ok (trace w) name buf data
         then (Ok tt, {| HINGLISH_TO_HINDI := HINGLISH_TO_HINDI w;
                         cwd := store (cwd w) name (buf ++ data);
                         trace := trace w |})
         else (Raise OSError, w).

(** The body of the [with open(...)] block. *)
Definition write_block (output_file_path base_filename transcript : pystr)
           (confidence_scores : option (list score)) : M unit :=
  f_write output_file_path (base_filename ++ u ":" ++ [newline]) ;;;
  f_write output_file_path transcript ;;;
  match confidence_scores with
  | None | Some [] => ret tt
  | Some scores =>
      for_each (combine (str_split transcript) scores)
        (fun wc =>
           f_write output_file_path
             (newline :: u "  - " ++ fst wc ++ u " (" ++ format_2f (snd wc) ++ u ")"))
  end.

(** Opening with mode 'w' creates the file empty; what has been written
    when a write raises stays in the file. *)
Definition create_transcript_file (file_path transcript : pystr)
           (confidence_scores : option (list score)) : M unit :=
  let base_filename := fst (splitext (basename file_path)) in
  let output_file_path := base_filename ++ u "-transcript.txt" in
  found <- path_exists output_file_path ;;
  if found then logging INFO
  else
    try_except
      (h <- get_trace ;;
       if open_w h output_file_path
       then write_file output_file_path [] ;;;
            write_block output_file_path base_filename transcript confidence_scores
       else raise OtherError)
      (fun _ => logging ERROR).

Definition call_recognizer (file_path : pystr) : M pystr :=
  h <- get_trace ;; emit (Recognize file_path) ;;; lift (recognize_google h file_path).

Definition call_detect (text : pystr) : M pystr :=
  h <- get_trace ;; emit (Detect text) ;;; lift (detect h text).

Definition call_translate (text source_lang : pystr) : M pystr :=
  h <- get_trace ;; emit (Translate text source_lang) ;;;
  lift (translate h text source_lang).

Definition detect_and_transcribe (file_path : pystr) : M (option pystr * option pystr) :=
  try_except
    (transcript <- call_recognizer file_path ;;
     lexicon <- get_lexicon ;;
     preprocessed_transcript <- lift (preprocess_text lexicon transcript) ;;
     detected_language <- call_detect preprocessed_transcript ;;
     logging INFO ;;;
     ret (Some detected_language, Some preprocessed_transcript))
    (fun e =>
       match e with
       | UnknownValueError => logging WARNING ;;; ret (None, None)
       | _ => logging ERROR ;;; ret (None, None)
       end).

(** The translator is constructed before the [try]. *)
Definition translate_text (text source_lang : pystr) : M (option pystr) :=
  h <- get_trace ;;
  lift (new_translator h) ;;;
  try_except
    (translated_text <- call_translate text source_lang ;; ret (Some translated_text))
    (fun _ => logging ERROR ;;; ret None).

(** Truth value of [translated_text]: [None] and the empty str are false. *)
Definition truthy (s : option pystr) : bool :=
  match s with
  | Some (_ :: _) => true
  | _ => false
  end.

(** [detect_and_transcribe] returns both values or [(None, None)]. *)
Definition translate_audio_to_text (file_path : pystr) : M (option pystr) :=
  r <- detect_and_transcribe file_path ;;
  match r with
  | (Some detected_language, Some transcript) =>
      if negb (pystr_eqb detected_language (u "en")) then
        translated_text <- translate_text transcript detected_language ;;
        if truthy translated_text then ret translated_text else ret (Some transcript)
      else ret (Some transcript)
  | _ => ret None
  end.

Definition process_file (file_path : pystr) (translate_to_english : bool) : M unit :=
  if negb (is_valid_file file_path) || negb (is_supported_format file_path)
  then logging ERROR
  else
    transcript <- translate_audio_to_text file_path ;;
    match transcript with
    | None => ret tt
    | Some t => create_transcript_file file_path t None
    end.

(** [os.walk]: top-down triples (root, dirs, files). *)
Fixpoint walk (top : pystr) (t : tree) : list (pystr * list pystr * list pystr) :=
  match t with
  | Dir dirs files =>
      (top, map fst dirs, files)
      :: flat_map (fun d => walk (join top (fst d)) (snd d)) dirs
  end.

(** The argument handed to [os.walk]: a path, or a list of paths. *)
Inductive walk_arg : Type :=
| APath (p : pystr)
| AList (l : list pystr).

(** [os.walk] converts its argument with [os.fspath], which refuses a
    list; a path that cannot be listed yields nothing. *)
Definition os_walk (top : walk_arg) : outcome (list (pystr * list pystr * list pystr)) :=
  match top with
  | APath p =>
      Ok (match listdir p with
          | Some t => walk p t
          | None => []
          end)
  | AList _ => Raise TypeError
  end.

Definition isdir (p : pystr) : bool :=
  match listdir p with
  | Some _ => true
  | None => false
  end.

Definition process_directory (directory_path : pystr) (recursive : bool)
           (translate_to_english : bool) : M unit :=
  if negb (isdir directory_path) then logging ERROR
  else
    triples <- lift (os_walk (if recursive then APath directory_path
                              else AList [directory_path])) ;;
    for_each triples (fun triple =>
      let root := fst (fst triple) in
      let files := snd triple in
      for_each files (fun file =>
        let file_path := join root file in
        if is_supported_format file_path
        then process_file file_path translate_to_english
        else ret tt)).

Record args : Type := {
  input_file_path : option pystr;
  input_directory_path : option pystr;
  recursive_flag : bool;
  translate_flag : bool;
  noise_reduction : bool
}.

Definition dataset_path : pystr := u "F:\Darpg hackathon\hinglish.txt".

(** Truth value of an optional str argument. *)
Definition given (a : option pystr) : option pystr :=
  match a with
  | Some (c :: s) => Some (c :: s)
  | _ => None
  end.

Definition main (a : args) : M unit :=
  load_hinglish_mapping dataset_path ;;;
  match given (input_file_path a), given (input_directory_path a) with
  | Some file_path, _ => process_file file_path (translate_flag a)
  | None, Some directory_path =>
      process_directory directory_path (recursive_flag a) (translate_flag a)
  | None, None => ret tt
  end ;;;
  logging INFO.

End Program.

(** ** Notions used to state the properties *)

Section Specification.

Context {RT : PyRuntime} {CO : Collaborators} {CF : Confidence}.

(** The line written for one (token, score) pair. *)
Definition confidence_line (wc : pystr * score) : pystr :=
  newline :: u "  - " ++ fst wc ++ u " (" ++ format_2f (snd wc) ++ u ")".

Definition supplied (confidence_scores : option (list score)) : list score :=
  match confidence_scores with
  | Some scores => scores
  | None => []
  end.

(** A key as the loader stores it: the [lower()] of some str, free of
    upper-case ASCII letters when that str is ASCII. *)
Definition lower_cased (k : pystr) : Prop :=
  exists h, k = str_lower h
            /\ (forallb is_ascii h = true ->
                forallb (fun c => negb (is_ascii_upper c)) k = true).

(** The transcript that [translate_audio_to_text] settles on, given the
    translator's answer. *)
Definition final_transcript (answer : outcome pystr) (transcript : pystr) : pystr :=
  match answer with
  | Ok (c :: s) => c :: s
  | _ => transcript
  end.

(** The file written for a transcript without confidence scores. *)
Definition plain_content (file_path transcript : pystr) : pystr :=
  fst (splitext (basename file_path)) ++ u ":" ++ [newline] ++ transcript.

(** The device takes every write to the file [name]. *)
Definition device_ok (name : pystr) : Prop :=
  (forall h, open_w h name = true)
  /\ (forall h buf data, write_ok h name buf data = true).

(** [written file_path b w x]: on world [w] the pipeline settles on the
    transcript [x], and when the input is a supported existing file whose
    artifact is absent, the device takes the writes, and the base name and
    [x] can be encoded, the artifact holds [x]. *)
Definition written (file_path : pystr) (b : bool) (w : world) (x : pystr) : Prop :=
  fst (translate_audio_to_text file_path w) = Ok (Some x)
  /\ (is_valid_file file_path = true ->
      is_supported_format file_path = true ->
      lookup (output_path file_path) (cwd w) = None ->
      device_ok (output_path file_path) ->
      utf8_encodable (fst (splitext (basename file_path))) = true ->
      utf8_encodable x = true ->
      lookup (output_path file_path) (cwd (snd (process_file file_path b w)))
      = Some (plain_content file_path x)).

(** The Hinglish and the Hindi field of a dataset line as the loader
    reads them: a missing "translation" counts as empty, a missing field
    as the empty str. *)
Definition fields_of (line : option json) : option (pystr * json) :=
  match line with
  | Some (JObj fields) =>
      match lookup (u "translation") fields with
      | None => Some ([], JStr [])
      | Some (JObj translation) =>
          let hindi := match lookup (u "en") translation with
                       | Some v => v
                       | None => JStr []
                       end in
          match lookup (u "hi_ng") translation with
          | None => Some ([], hindi)
          | Some (JStr hinglish) => Some (hinglish, hindi)
          | Some _ => None
          end
      | Some _ => None
      end
  | _ => None
  end.

(** The part of [s] after its last [c]; all of [s] when [c] is not in it. *)
Fixpoint after_last (c : N) (s : pystr) : pystr :=
  match s with
  | [] => []
  | x :: s' =>
      if existsb (N.eqb c) s' then after_last c s'
      else if N.eqb x c then s' else x :: s'
  end.

Fixpoint drop_dots (s : pystr) : pystr :=
  match s with
  | x :: s' => if N.eqb x extsep then drop_dots s' else s
  | [] => []
  end.

(** The extension of a path, said without [splitext]: take the last
    component, set its leading dots aside, and keep what starts at the
    last dot of the rest; nothing when no dot is left. *)
Definition extension (path : pystr) : pystr :=
  let body := drop_dots (after_last sep path) in
  if existsb (N.eqb extsep) body then extsep :: after_last extsep body else [].

(** The paths of the files that a walk lists, in order. *)
Definition walked_files (triples : list (pystr * list pystr * list pystr)) : list pystr :=
  flat_map (fun triple => map (join (fst (fst triple))) (snd triple)) triples.

(** Equality of a key and a token under [re.IGNORECASE], character by
    character. *)
Fixpoint ci_equal (key w : pystr) : bool :=
  match key, w with
  | [], [] => true
  | k :: key', t :: w' => ci_match k t && ci_equal key' w'
  | _, _ => false
  end.

Definition emit_word (key hindi cur : pystr) : pystr :=
  let w := rev cur in if ci_equal key w then hindi else w.

(** Following the specification's words: the text is read as word tokens
    (maximal runs of word characters) and the characters between them; a
    token equal to the key, ignoring case, is replaced by the Hindi value;
    everything else is kept.  [cur] is the token being read, reversed. *)
Fixpoint replace_scan (key hindi s cur : pystr) : pystr :=
  match s with
  | [] => emit_word key hindi cur
  | c :: s' =>
      if is_word c then replace_scan key hindi s' (c :: cur)
      else emit_word key hindi cur ++ c :: replace_scan key hindi s' []
  end.

Definition replace_words (key hindi text : pystr) : pystr :=
  replace_scan key hindi text [].

Definition no_backslash (s : pystr) : bool :=
  forallb (fun c => negb (N.eqb c backslash)) s.

(** A lexicon entry whose key is a non-empty run of ASCII letters and
    digits and whose value holds no backslash. *)
Definition plain_entry (kh : pystr * pystr) : Prop :=
  fst kh <> [] /\ forallb is_ascii_alnum (fst kh) = true /\ no_backslash (snd kh) = true.

Definition str_item (kh : pystr * pystr) : pystr * json := (fst kh, JStr (snd kh)).

(** The lexicon applied entry by entry, in insertion order. *)
Definition replace_all (pairs : list (pystr * pystr)) (text : pystr) : pystr :=
  fold_left (fun t kh => replace_words (fst kh) (snd kh) t) pairs text.

(** The atoms that the pattern of an alphanumeric key compiles to. *)
Definition key_atoms (key : pystr) : list atom :=
  ABoundary :: map ALit key ++ [ABoundary].

(** The literal part of the match, then the closing boundary. *)
Fixpoint lit_match (key : pystr) (prev : option N) (s : pystr) : bool :=
  match key with
  | [] => at_boundary prev s
  | k :: key' =>
      match s with
      | t :: s' => ci_match k t && lit_match key' (Some t) s'
      | [] => false
      end
  end.

(** The character before the position reached after reading [m]. *)
Definition last_seen (m : pystr) (prev : option N) : option N :=
  fold_left (fun _ c => Some c) m prev.

(** The word characters at the head of [s], and what follows them. *)
Fixpoint word_prefix (s : pystr) : pystr :=
  match s with
  | c :: s' => if is_word c then c :: word_prefix s' else []
  | [] => []
  end.

Fixpoint word_rest (s : pystr) : pystr :=
  match s with
  | c :: s' => if is_word c then word_rest s' else s
  | [] => []
  end.

(** A dataset line that the loader accepts: it parses to an object whose
    "translation", when present, is an object whose "hi_ng", when present,
    is a str. *)
Definition well_shaped (line : option json) : bool :=
  match line with
  | Some (JObj fields) =>
      match lookup (u "translation") fields with
      | None => true
      | Some (JObj translation) =>
          match lookup (u "hi_ng") translation with
          | None | Some (JStr _) => true
          | Some _ => false
          end
      | Some _ => false
      end
  | _ => false
  end.

(** The dataset record with both fields. *)
Definition dataset_record (hinglish : pystr) (hindi : json) : json :=
  JObj [(u "translation", JObj [(u "hi_ng", JStr hinglish); (u "en", hindi)])].

(** The level at which [detect_and_transcribe] logs an exception. *)
Definition level_of (e : exn) : level :=
  match e with
  | UnknownValueError => WARNING
  | _ => ERROR
  end.

(** The arguments that send [main] into the walk without recursion: no
    file, an existing directory, no [-r]. *)
Definition flat_walk (a : args) : bool :=
  match given (input_file_path a), given (input_directory_path a) with
  | None, Some directory_path => isdir directory_path && negb (recursive_flag a)
  | _, _ => false
  end.

(** [keeps R m]: whatever [m] does and however it ends, the world it
    leaves is related by [R] to the world it started from. *)
Definition keeps {A : Type} (R : world -> world -> Prop) (m : M A) : Prop :=
  forall w, R w (snd (m w)).

(** The dictionary is the same and the history has only grown. *)
Definition grows (w w' : world) : Prop :=
  HINGLISH_TO_HINDI w' = HINGLISH_TO_HINDI w
  /\ exists evs, trace w' = evs ++ trace w.

(** Moreover the working directory is the same. *)
Definition quiet (w w' : world) : Prop :=
  grows w w' /\ cwd w' = cwd w.

(** Moreover no name but [name] has changed in the working directory. *)
Definition touches (name : pystr) (w w' : world) : Prop :=
  grows w w'
  /\ forall other, other <> name -> lookup other (cwd w') = lookup other (cwd w).

(** A directory prefix: nothing, or a path ending in the separator. *)
Definition dir_prefix (pre : pystr) : Prop :=
  pre = [] \/ exists d, pre = d ++ [sep].

End Specification.

(** ** A concrete setting

    The directory of the specification's example ([A/x.wav] and
    [A/sub/y.wav]) and a single file [a.wav]; the recogniser hears
    "mera naam hai", the detector answers "hi". *)

(** A runtime that is exact on ASCII and on the Devanagari block
    (U+0900..U+097F: letters and digits are alphanumeric, vowel signs and
    other marks are not; the script has no case).  Nothing below evaluates
    its [ext_re_sub]. *)

Definition devanagari_isalnum (c : N) : bool :=
  (N.leb 2308 c && N.leb c 2361) || N.eqb c 2365 || N.eqb c 2384
  || (N.leb 2392 c && N.leb c 2401) || (N.leb 2406 c && N.leb c 2415)
  || (N.leb 2417 c && N.leb c 2431).

Definition plain_ci_match (p t : N) : bool := N.eqb p t.

Definition devanagari_runtime : PyRuntime.
Proof.
  refine {| ext_isalnum := devanagari_isalnum;
            ext_isspace := fun _ => false;
            ext_ci_match := plain_ci_match;
            ext_lower := fun s => s;
            ext_re_sub := fun _ _ _ => Raise OtherError;
            ext_ci_word := _ |}.
  intros p t Hp Ht Hm. apply N.eqb_eq in Hm. subst t.
  unfold is_ascii_alnum, is_ascii_upper, is_ascii_lower, is_ascii_digit in Hp.
  unfold is_ascii in Ht. apply N.ltb_ge in Ht.
  repeat (apply orb_true_iff in Hp; destruct Hp as [Hp | Hp]);
    apply andb_true_iff in Hp; destruct Hp as [_ Hp];
    apply N.leb_le in Hp; lia.
Defined.

Definition naam_hindi : pystr := [2344; 2366; 2350]%N.
Definition naam_lexicon : dict := [(u "naam", JStr naam_hindi)].

Definition example_tree : tree :=
  Dir [(u "sub", Dir [] [u "y.wav"])] [u "x.wav"].

Definition studio (dataset : option (list (option json)))
           (translation : outcome pystr) : Collaborators := {|
  isfile := fun p => existsb (pystr_eqb p) [u "a.wav"; u "A/x.wav"; u "A/sub/y.wav"];
  listdir := fun p => if pystr_eqb p (u "A") then Some example_tree else None;
  open_dataset := fun p => if pystr_eqb p dataset_path then dataset else None;
  recognize_google := fun _ _ => Ok (u "mera naam hai");
  detect := fun _ _ => Ok (u "hi");
  new_translator := fun _ => Ok tt;
  translate := fun _ _ _ => translation;
  open_w := fun _ _ => true;
  write_ok := fun _ _ _ _ => true
|}.

(** Scores in hundredths, printed with two decimals. *)
Definition digit (n : N) : N := (48 + n mod 10)%N.

Definition hundredths : Confidence := {|
  score := N;
  format_2f := fun n => [digit (n / 100); 46%N; digit (n / 10); digit n]
|}.

(** ** Python floats and the format [.2f] *)









Definition naam_line : json :=
  JObj [(u "translation", JObj [(u "hi_ng", JStr (u "Naam")); (u "en", JStr naam_hindi)])].

Definition normalised : pystr := u "mera " ++ naam_hindi ++ u " hai".

Definition fresh : world :=
  {| HINGLISH_TO_HINDI := naam_lexicon; cwd := []; trace := [] |}.

Definition done : world :=
  {| HINGLISH_TO_HINDI := naam_lexicon;
     cwd := [(u "a-transcript.txt", u "a:" ++ [newline] ++ u "my name is")];
     trace := [] |}.

Definition blank : world :=
  {| HINGLISH_TO_HINDI := []; cwd := []; trace := [] |}.

(** A setting where every collaborator's answer can be chosen. *)
Definition booth (heard language translation : outcome pystr)
           (writable : bool) : Collaborators := {|
  isfile := fun p => existsb (pystr_eqb p) [u "a.wav"; u "A/x.wav"; u "A/sub/y.wav"];
  listdir := fun p => if pystr_eqb p (u "A") then Some example_tree else None;
  open_dataset := fun _ => None;
  recognize_google := fun _ _ => heard;
  detect := fun _ _ => language;
  new_translator := fun _ => Ok tt;
  translate := fun _ _ _ => translation;
  open_w := fun _ _ => writable;
  write_ok := fun _ _ _ _ => true
|}.

(** A setting where the construction of the translator and the writes
    after a successful open can fail. *)
Definition bench (construction : outcome unit) (translation : outcome pystr)
           (writes : bool) : Collaborators := {|
  isfile := fun p => existsb (pystr_eqb p) [u "a.wav"; u "A/x.wav"; u "A/sub/y.wav"];
  listdir := fun p => if pystr_eqb p (u "A") then Some example_tree else None;
  open_dataset := fun p => if pystr_eqb p dataset_path then Some [Some naam_line] else None;
  recognize_google := fun _ _ => Ok (u "mera naam hai");
  detect := fun _ _ => Ok (u "hi");
  new_translator := fun _ => construction;
  translate := fun _ _ _ => translation;
  open_w := fun _ _ => true;
  write_ok := fun _ _ _ _ => writes
|}.

(** A world whose dictionary holds a key that is no valid pattern. *)
Definition poisoned : world :=
  {| HINGLISH_TO_HINDI := [(u "(", JStr (u "x"))]; cwd := []; trace := [] |}.

(** * Properties *)

(** ** Worked examples *)

Example splitext_clip :
  splitext (u "dir.d/clip.MP3") = (u "dir.d/clip", u ".MP3")
  /\ splitext (u "dir.d/.bashrc") = (u "dir.d/.bashrc", [])
  /\ splitext (u "a/b..c") = (u "a/b.", u ".c")
  /\ basename (u "a/b/c.wav") = u "c.wav"
  /\ join (u "A") (u "x.wav") = u "A/x.wav"
  /\ @str_split devanagari_runtime (u "  mera naam   hai ") = [u "mera"; u "naam"; u "hai"].
Proof. repeat split; reflexivity. Qed.

Example preprocess_examples :
  @preprocess_text devanagari_runtime [(u "", JStr (u "x"))] (u "a b") = Ok (u "xax xbx")
  /\ @preprocess_text devanagari_runtime [(u "a.c", JStr (u "x"))] (u "abc a.c") = Ok (u "x x")
  /\ @preprocess_text devanagari_runtime [(u "a", JNum 1)] (u "b") = Raise TypeError.
Proof. repeat split; reflexivity. Qed.

(** ** Strings and paths *)

Lemma pystr_eqb_eq : forall a b, pystr_eqb a b = true <-> a = b.
Proof.
  induction a as [| x a IH]; destruct b as [| y b]; simpl; split;
    try congruence; try reflexivity.
  - intros H. apply andb_true_iff in H. destruct H as [Hx Hab].
    apply N.eqb_eq in Hx. apply IH in Hab. congruence.
  - intros H. injection H as -> ->. rewrite N.eqb_refl. simpl. now apply IH.
Qed.

Lemma pystr_eqb_refl : forall a, pystr_eqb a a = true.
Proof. intros a. now apply pystr_eqb_eq. Qed.

Lemma pystr_eqb_neq : forall a b, pystr_eqb a b = false <-> a <> b.
Proof.
  intros a b. split.
  - intros H E. apply pystr_eqb_eq in E. congruence.
  - intros H. destruct (pystr_eqb a b) eqn:E; [| reflexivity].
    apply pystr_eqb_eq in E. contradiction.
Qed.

Lemma splitext_concat : forall p, fst (splitext p) ++ snd (splitext p) = p.
Proof.
  intros p. unfold splitext.
  destruct (Z.ltb (rfind p sep) (rfind p extsep)).
  - destruct (splitext_loop _ _ _); simpl.
    + unfold slice_to, slice_from. apply firstn_skipn.
    + apply app_nil_r.
  - simpl. apply app_nil_r.
Qed.

Lemma existsb_eqb_In : forall (x : pystr) l,
    existsb (pystr_eqb x) l = true <-> In x l.
Proof.
  intros x l. rewrite existsb_exists. split.
  - intros [y [Hy E]]. apply pystr_eqb_eq in E. now subst.
  - intros H. exists x. split; [assumption | apply pystr_eqb_refl].
Qed.

(** ** Paths and names *)

Lemma rfind_from_absent : forall c s i, ~ In c s -> rfind_from c s i = (-1)%Z.
Proof.
  induction s as [| x s IH]; intros i H; simpl; [reflexivity |].
  rewrite IH by (intros Hin; apply H; now right). simpl.
  destruct (N.eqb_spec x c) as [-> | _]; [| reflexivity].
  exfalso. apply H. now left.
Qed.

Lemma rfind_from_last : forall c a b i,
    (0 <= i)%Z -> ~ In c b ->
    rfind_from c (a ++ c :: b) i = (i + Z.of_nat (length a))%Z.
Proof.
  induction a as [| x a IH]; intros b i Hi Hb; simpl app.
  - cbn [rfind_from]. rewrite rfind_from_absent by assumption. simpl.
    rewrite N.eqb_refl. simpl. lia.
  - cbn [rfind_from]. rewrite IH by (assumption || lia).
    destruct (Z.leb_spec 0 (i + 1 + Z.of_nat (length a))); [| lia].
    cbn [length]. lia.
Qed.

Lemma skipn_past : forall (a : pystr) c b,
    skipn (Z.to_nat (Z.of_nat (length a) + 1)) (a ++ c :: b) = b.
Proof.
  intros a c b. replace (Z.to_nat (Z.of_nat (length a) + 1)) with (length a + 1) by lia.
  rewrite skipn_app, skipn_all2 by lia.
  replace (length a + 1 - length a) with 1 by lia. reflexivity.
Qed.

Lemma basename_after_sep : forall d file,
    ~ In sep file -> basename (d ++ sep :: file) = file.
Proof.
  intros d file H. unfold basename, rfind, slice_from.
  rewrite rfind_from_last by (assumption || lia). apply skipn_past.
Qed.

Lemma basename_join : forall root file,
    ~ In sep file -> basename (join root file) = file.
Proof.
  intros root file H. unfold join.
  destruct (startswith_sep file) eqn:Es.
  { destruct file as [| c file]; [discriminate |]. simpl in Es.
    apply N.eqb_eq in Es. subst c. exfalso. apply H. now left. }
  destruct root as [| r root].
  - unfold basename, rfind, slice_from. now rewrite rfind_from_absent.
  - destruct (endswith_sep (r :: root)) eqn:Ee.
    + unfold endswith_sep in Ee. destruct (rev (r :: root)) as [| c l] eqn:Er;
        [discriminate |].
      apply N.eqb_eq in Ee. subst c.
      assert (Hroot : r :: root = rev l ++ [sep]).
      { rewrite <- (rev_involutive (r :: root)), Er. reflexivity. }
      rewrite Hroot, <- app_assoc. simpl app. now apply basename_after_sep.
    + now apply basename_after_sep.
Qed.

Lemma splitext_loop_stem : forall stem pre rest,
    splitext_loop (pre ++ stem ++ rest) (Z.of_nat (length pre)) (length stem)
    = existsb (fun c => negb (N.eqb c extsep)) stem.
Proof.
  induction stem as [| x stem IH]; intros pre rest; [reflexivity |].
  cbn [length splitext_loop existsb].
  assert (Hs : slice (pre ++ (x :: stem) ++ rest) (Z.of_nat (length pre))
                     (Z.of_nat (length pre) + 1) = [x]).
  { unfold slice, slice_to, slice_from. rewrite Nat2Z.id.
    rewrite skipn_app, skipn_all, Nat.sub_diag. simpl.
    replace (Z.to_nat (Z.of_nat (length pre) + 1 - Z.of_nat (length pre)))
      with 1 by lia.
    reflexivity. }
  rewrite Hs. cbn [pystr_eqb]. rewrite andb_true_r.
  destruct (N.eqb x extsep); simpl; [| reflexivity].
  assert (Hp : pre ++ (x :: stem) ++ rest = (pre ++ [x]) ++ stem ++ rest)
    by now rewrite <- app_assoc.
  simpl app in Hp |- *. rewrite Hp.
  replace (Z.of_nat (length pre) + 1)%Z with (Z.of_nat (length (pre ++ [x])))
    by (rewrite length_app; simpl; lia).
  apply IH.
Qed.

Lemma splitext_name : forall pre stem e,
    dir_prefix pre -> ~ In sep stem -> ~ In sep e -> ~ In extsep e ->
    splitext (pre ++ stem ++ extsep :: e)
    = if existsb (fun c => negb (N.eqb c extsep)) stem
      then (pre ++ stem, extsep :: e)
      else (pre ++ stem ++ extsep :: e, []).
Proof.
  intros pre stem e Hpre Hstem He Hdot.
  assert (Hrest : ~ In sep (stem ++ extsep :: e)).
  { intros H. apply in_app_or in H. destruct H as [H | [H | H]];
      [contradiction | discriminate | contradiction]. }
  assert (Hsep : rfind (pre ++ stem ++ extsep :: e) sep
                 = (Z.of_nat (length pre) - 1)%Z).
  { unfold rfind. destruct Hpre as [-> | [d ->]].
    - simpl app. now rewrite rfind_from_absent.
    - rewrite <- app_assoc. simpl app.
      rewrite rfind_from_last by (assumption || lia).
      rewrite length_app. simpl. lia. }
  assert (Hext : rfind (pre ++ stem ++ extsep :: e) extsep
                 = Z.of_nat (length pre + length stem)).
  { unfold rfind. rewrite app_assoc.
    rewrite rfind_from_last by (assumption || lia).
    rewrite length_app. lia. }
  unfold splitext. rewrite Hsep, Hext.
  destruct (Z.ltb_spec (Z.of_nat (length pre) - 1)
                       (Z.of_nat (length pre + length stem))); [| lia].
  replace (Z.of_nat (length pre) - 1 + 1)%Z with (Z.of_nat (length pre)) by lia.
  replace (Z.to_nat (Z.of_nat (length pre + length stem) - Z.of_nat (length pre)))
    with (length stem) by lia.
  rewrite splitext_loop_stem.
  destruct (existsb (fun c => negb (N.eqb c extsep)) stem); [| reflexivity].
  unfold slice_to, slice_from. rewrite Nat2Z.id, app_assoc.
  rewrite <- length_app.
  rewrite firstn_app, firstn_all, Nat.sub_diag. simpl firstn. rewrite app_nil_r.
  rewrite skipn_app, skipn_all, Nat.sub_diag. reflexivity.
Qed.

Lemma existsb_eqb_N : forall c s, existsb (N.eqb c) s = true <-> In c s.
Proof.
  intros c s. rewrite existsb_exists. split.
  - intros [x [Hx E]]. apply N.eqb_eq in E. now subst.
  - intros H. exists c. split; [assumption | apply N.eqb_refl].
Qed.

Lemma existsb_eqb_N_false : forall c s, ~ In c s -> existsb (N.eqb c) s = false.
Proof.
  intros c s H. destruct (existsb (N.eqb c) s) eqn:E; [| reflexivity].
  apply existsb_eqb_N in E. contradiction.
Qed.

(** A list either lacks [c] or splits at its last [c]. *)
Lemma split_at_last : forall c (s : pystr),
    ~ In c s \/ exists a b, s = a ++ c :: b /\ ~ In c b.
Proof.
  induction s as [| x s IH].
  - left. intros [].
  - destruct IH as [Hout | [a [b [-> Hb]]]].
    + destruct (N.eqb_spec x c) as [-> | Hne].
      * right. exists [], s. split; [reflexivity | assumption].
      * left. intros [H | H]; [contradiction | contradiction].
    + right. exists (x :: a), b. split; [reflexivity | assumption].
Qed.

Lemma after_last_absent : forall c s, ~ In c s -> after_last c s = s.
Proof.
  induction s as [| x s IH]; intros H; simpl; [reflexivity |].
  rewrite existsb_eqb_N_false by (intros Hin; apply H; now right).
  destruct (N.eqb_spec x c) as [-> | _]; [| reflexivity].
  exfalso. apply H. now left.
Qed.

Lemma after_last_last : forall c a b, ~ In c b -> after_last c (a ++ c :: b) = b.
Proof.
  induction a as [| x a IH]; intros b Hb; simpl.
  - rewrite existsb_eqb_N_false by assumption. now rewrite N.eqb_refl.
  - replace (existsb (N.eqb c) (a ++ c :: b)) with true; [now apply IH |].
    symmetry. apply existsb_eqb_N. apply in_or_app. right. now left.
Qed.

Lemma drop_dots_absent : forall s, ~ In extsep s -> drop_dots s = s.
Proof.
  intros [| x s] H; simpl; [reflexivity |].
  destruct (N.eqb_spec x extsep) as [-> | _]; [| reflexivity].
  exfalso. apply H. now left.
Qed.

Lemma drop_dots_stem : forall stem rest,
    drop_dots (stem ++ rest)
    = if existsb (fun c => negb (N.eqb c extsep)) stem
      then drop_dots stem ++ rest
      else drop_dots rest.
Proof.
  induction stem as [| x stem IH]; intros rest; simpl; [reflexivity |].
  destruct (N.eqb x extsep); simpl; [apply IH | reflexivity].
Qed.

Lemma extension_name : forall pre stem e,
    dir_prefix pre -> ~ In sep stem -> ~ In sep e -> ~ In extsep e ->
    extension (pre ++ stem ++ extsep :: e)
    = if existsb (fun c => negb (N.eqb c extsep)) stem then extsep :: e else [].
Proof.
  intros pre stem e Hpre Hstem He Hdot.
  assert (Hrest : ~ In sep (stem ++ extsep :: e)).
  { intros H. apply in_app_or in H. destruct H as [H | [H | H]];
      [contradiction | discriminate | contradiction]. }
  assert (Hname : after_last sep (pre ++ stem ++ extsep :: e) = stem ++ extsep :: e).
  { destruct Hpre as [-> | [d ->]].
    - now apply after_last_absent.
    - rewrite <- app_assoc. now apply after_last_last. }
  unfold extension. rewrite Hname, drop_dots_stem.
  destruct (existsb (fun c => negb (N.eqb c extsep)) stem).
  - replace (existsb (N.eqb extsep) (drop_dots stem ++ extsep :: e)) with true.
    + now rewrite after_last_last.
    + symmetry. apply existsb_eqb_N. apply in_or_app. right. now left.
  - change (drop_dots (extsep :: e)) with (drop_dots e).
    rewrite drop_dots_absent by assumption.
    now rewrite existsb_eqb_N_false.
Qed.

Lemma rfind_from_bound : forall c s i,
    (0 <= i)%Z -> (rfind_from c s i < i + Z.of_nat (length s))%Z.
Proof.
  induction s as [| x s IH]; intros i Hi; simpl rfind_from.
  - simpl. lia.
  - specialize (IH (i + 1)%Z ltac:(lia)). cbn [length].
    destruct (Z.leb 0 (rfind_from c s (i + 1))); [lia |].
    destruct (N.eqb x c); lia.
Qed.

Lemma rfind_from_app_absent : forall c a b i,
    ~ In c b -> rfind_from c (a ++ b) i = rfind_from c a i.
Proof.
  induction a as [| x a IH]; intros b i Hb; simpl.
  - now apply rfind_from_absent.
  - now rewrite IH.
Qed.

Lemma splitext_no_dot : forall pre name,
    dir_prefix pre -> ~ In sep name -> ~ In extsep name ->
    splitext (pre ++ name) = (pre ++ name, [])
    /\ extension (pre ++ name) = [].
Proof.
  intros pre name Hpre Hsep Hdot. split.
  - unfold splitext, rfind.
    destruct Hpre as [-> | [d ->]].
    + simpl app. rewrite !rfind_from_absent by assumption. reflexivity.
    + rewrite <- app_assoc. simpl app.
      rewrite rfind_from_last by (assumption || lia).
      rewrite (rfind_from_app_absent extsep d (sep :: name)).
      * pose proof (rfind_from_bound extsep d (Z.le_refl 0)).
        destruct (Z.ltb_spec (0 + Z.of_nat (length d)) (rfind_from extsep d 0));
          [lia | reflexivity].
      * intros [H | H]; [discriminate | contradiction].
  - unfold extension.
    assert (Hname : after_last sep (pre ++ name) = name).
    { destruct Hpre as [-> | [d ->]].
      - now apply after_last_absent.
      - rewrite <- app_assoc. now apply after_last_last. }
    rewrite Hname, drop_dots_absent by assumption.
    now rewrite existsb_eqb_N_false.
Qed.

(** What [splitext] returns as the extension is the extension. *)
Lemma splitext_extension : forall path, snd (splitext path) = extension path.
Proof.
  intros path.
  assert (Hdec : exists pre name,
             path = pre ++ name /\ dir_prefix pre /\ ~ In sep name).
  { destruct (split_at_last sep path) as [Hout | [d [name [-> Hname]]]].
    - exists [], path. repeat split; [now left | assumption].
    - exists (d ++ [sep]), name. rewrite <- app_assoc.
      repeat split; [right; now exists d | assumption]. }
  destruct Hdec as [pre [name [-> [Hpre Hsep]]]].
  destruct (split_at_last extsep name) as [Hout | [stem [e [-> He]]]].
  - destruct (@splitext_no_dot pre name Hpre Hsep Hout) as [H1 H2].
    now rewrite H1, H2.
  - assert (Hs : ~ In sep stem).
    { intros H. apply Hsep. apply in_or_app. now left. }
    assert (Hse : ~ In sep e).
    { intros H. apply Hsep. apply in_or_app. right. now right. }
    rewrite splitext_name, extension_name by assumption.
    destruct (existsb (fun c => negb (N.eqb c extsep)) stem); reflexivity.
Qed.

(** ** Format gating *)

(** C9: a path is supported exactly when its extension, lower-cased,
    is one of .m4a .mp3 .webm .mp4 .mpga .wav .mpeg, where the extension
    is what starts at the last dot of the last path component once that
    component's leading dots are set aside (nothing when no dot is left);
    the extension is the tail of the path; clip.MP3 is supported and
    clip.ogg is not. *)
Theorem is_supported_format_spec :
  forall (RT : PyRuntime),
    (forall path,
        is_supported_format path = true <->
        In (str_lower (extension path))
           [u ".m4a"; u ".mp3"; u ".webm"; u ".mp4"; u ".mpga"; u ".wav"; u ".mpeg"])
    /\ (forall path, exists stem, path = stem ++ extension path)
    /\ is_supported_format (u "clip.MP3") = true
    /\ is_supported_format (u "clip.ogg") = false.
Proof.
  intros RT. split; [| split; [| split; reflexivity]].
  - intros path. unfold is_supported_format. rewrite splitext_extension.
    apply existsb_eqb_In.
  - intros path. exists (fst (splitext path)). rewrite <- splitext_extension.
    symmetry. apply splitext_concat.
Qed.

(** ** Association lists *)

Lemma lookup_store_same : forall (V : Type) (d : list (pystr * V)) k v,
    lookup k (store d k v) = Some v.
Proof.
  induction d as [| [k' v'] d IH]; intros k v; simpl.
  - now rewrite pystr_eqb_refl.
  - destruct (pystr_eqb k' k) eqn:E; simpl; rewrite E; [reflexivity | apply IH].
Qed.

Lemma lookup_store_other : forall (V : Type) (d : list (pystr * V)) k k' v,
    k' <> k -> lookup k' (store d k v) = lookup k' d.
Proof.
  induction d as [| [k0 v0] d IH]; intros k k' v Hne; simpl.
  - destruct (pystr_eqb k k') eqn:E; [| reflexivity].
    apply pystr_eqb_eq in E. congruence.
  - destruct (pystr_eqb k0 k) eqn:E; simpl.
    + apply pystr_eqb_eq in E. subst k0.
      destruct (pystr_eqb k k') eqn:E'; [| reflexivity].
      apply pystr_eqb_eq in E'. congruence.
    + destruct (pystr_eqb k0 k'); [reflexivity | now apply IH].
Qed.

(** ** Transcript writer *)

Section WriterFacts.

Context {RT : PyRuntime} {CO : Collaborators} {CF : Confidence}.

Lemma store_store : forall (V : Type) (d : list (pystr * V)) k v v',
    store (store d k v) k v' = store d k v'.
Proof.
  induction d as [| [k0 v0] d IH]; intros k v v'; simpl.
  - now rewrite pystr_eqb_refl.
  - destruct (pystr_eqb k0 k) eqn:E; simpl; rewrite E; [reflexivity |].
    now rewrite IH.
Qed.

Lemma fold_write_confidence : forall pairs buf,
    fold_left write_confidence pairs buf = buf ++ concat (map confidence_line pairs).
Proof.
  induction pairs as [| wc pairs IH]; intros buf; simpl.
  - now rewrite app_nil_r.
  - rewrite IH. unfold write_confidence, confidence_line.
    now rewrite <- app_assoc.
Qed.



Lemma split_ws_tokens : forall s cur,
    forallb (fun c => negb (isspace c)) cur = true ->
    concat (split_ws s cur) = rev cur ++ filter (fun c => negb (isspace c)) s
    /\ Forall (fun token => token <> []
                            /\ forallb (fun c => negb (isspace c)) token = true)
              (split_ws s cur).
Proof.
  assert (Hrev : forall cur, cur <> [] ->
                   forallb (fun c => negb (isspace c)) cur = true ->
                   rev cur <> []
                   /\ forallb (fun c => negb (isspace c)) (rev cur) = true).
  { intros cur Hne Hcur. split.
    - intros H. apply Hne. rewrite <- (rev_involutive cur), H. reflexivity.
    - apply forallb_forall. intros c Hc. apply in_rev in Hc.
      now apply (proj1 (forallb_forall _ _) Hcur). }
  induction s as [| c s IH]; intros cur Hcur; simpl.
  - destruct cur as [| x cur]; simpl.
    + split; [reflexivity | constructor].
    + rewrite !app_nil_r. split; [reflexivity |].
      constructor; [| constructor]. now apply (Hrev (x :: cur)).
  - destruct (isspace c) eqn:Ec; simpl.
    + destruct (IH [] eq_refl) as [IH1 IH2]. destruct cur as [| x cur].
      * split; [exact IH1 | exact IH2].
      * simpl concat. rewrite IH1. split; [reflexivity |].
        constructor; [| exact IH2]. now apply (Hrev (x :: cur)).
    + destruct (IH (c :: cur)) as [IH1 IH2].
      { simpl. now rewrite Ec. }
      split; [| exact IH2]. rewrite IH1. simpl. now rewrite <- app_assoc.
Qed.

Lemma utf8_encodable_app : forall a b,
    utf8_encodable (a ++ b) = utf8_encodable a && utf8_encodable b.
Proof. intros a b. unfold utf8_encodable. apply forallb_app. Qed.


Lemma token_encodable : forall transcript token,
    utf8_encodable transcript = true -> In token (str_split transcript) ->
    utf8_encodable token = true.
Proof.
  intros transcript token Ht Hin.
  destruct (split_ws_tokens transcript [] eq_refl) as [Hcat _]. simpl in Hcat.
  apply forallb_forall. intros c Hc.
  assert (Hcin : In c (concat (str_split transcript))).
  { apply in_concat. exists token. now split. }
  unfold str_split in Hcin. rewrite Hcat in Hcin. apply filter_In in Hcin.
  now apply (proj1 (forallb_forall _ _) Ht).
Qed.

Lemma f_write_ok : forall name data w buf,
    lookup name (cwd w) = Some buf ->
    utf8_encodable data = true ->
    write_ok (trace w) name buf data = true ->
    f_write name data w =
    (Ok tt, {| HINGLISH_TO_HINDI := HINGLISH_TO_HINDI w;
               cwd := store (cwd w) name (buf ++ data);
               trace := trace w |}).
Proof.
  intros name data w buf Hbuf Henc Hdev. unfold f_write.
  now rewrite Hbuf, Henc, Hdev.
Qed.

Lemma write_lines_ok : forall name pairs w buf,
    lookup name (cwd w) = Some buf ->
    (forall h b data, write_ok h name b data = true) ->
    (forall wc, In wc pairs -> utf8_encodable (confidence_line wc) = true) ->
    for_each pairs (fun wc => f_write name (confidence_line wc)) w =
    (Ok tt, {| HINGLISH_TO_HINDI := HINGLISH_TO_HINDI w;
               cwd := store (cwd w) name (buf ++ concat (map confidence_line pairs));
               trace := trace w |}).
Proof.
  induction pairs as [| wc pairs IH]; intros w buf Hbuf Hdev Henc.
  - simpl. unfold ret. rewrite app_nil_r. destruct w as [lex files tr]. simpl in *.
    f_equal. f_equal. clear Hdev Henc. revert Hbuf.
    induction files as [| [k v] files IHf]; simpl; [discriminate |].
    destruct (pystr_eqb k name); intros H.
    + now injection H as ->.
    + now rewrite <- IHf.
  - cbn [for_each]. unfold bind.
    rewrite (f_write_ok _ _ _ Hbuf) by (auto; apply Henc; now left).
    rewrite (IH _ (buf ++ confidence_line wc)).
    + cbn [HINGLISH_TO_HINDI cwd trace]. rewrite store_store.
      simpl. now rewrite <- app_assoc.
    + cbn [cwd]. apply lookup_store_same.
    + exact Hdev.
    + intros wc' Hin. apply Henc. now right.
Qed.

(** The block when every write goes through. *)
Lemma write_block_ok : forall name base transcript scores w,
    lookup name (cwd w) = Some [] ->
    (forall h b data, write_ok h name b data = true) ->
    utf8_encodable base = true ->
    utf8_encodable transcript = true ->
    (forall s, In s (supplied scores) -> utf8_encodable (format_2f s) = true) ->
    write_block name base transcript scores w =
    (Ok tt, {| HINGLISH_TO_HINDI := HINGLISH_TO_HINDI w;
               cwd := store (cwd w) name (transcript_content base transcript scores);
               trace := trace w |}).
Proof.
  intros name base transcript scores w Hbuf Hdev Hbase Ht Hfmt.
  unfold write_block, bind.
  rewrite (f_write_ok _ _ _ Hbuf); auto.
  2: { rewrite !utf8_encodable_app, Hbase. reflexivity. }
  set (w1 := {| HINGLISH_TO_HINDI := HINGLISH_TO_HINDI w;
                cwd := store (cwd w) name ([] ++ base ++ u ":" ++ [newline]);
                trace := trace w |}).
  assert (Hbuf1 : lookup name (cwd w1) = Some (base ++ u ":" ++ [newline])).
  { apply lookup_store_same. }
  rewrite (f_write_ok _ _ _ Hbuf1); auto.
  cbn [HINGLISH_TO_HINDI cwd trace w1]. rewrite store_store.
  set (buf2 := (base ++ u ":" ++ [newline]) ++ transcript).
  assert (Hplain : transcript_content base transcript None = buf2)
    by reflexivity.
  destruct scores as [[| sc scores] |]; try (unfold ret; reflexivity).
  set (w2 := {| HINGLISH_TO_HINDI := HINGLISH_TO_HINDI w;
                cwd := store (cwd w) name buf2; trace := trace w |}).
  assert (Hlines : forall wc,
             In wc (combine (str_split transcript) (sc :: scores)) ->
             utf8_encodable (confidence_line wc) = true).
  { intros [token s0] Hin. unfold confidence_line. cbn [fst snd].
    change (newline :: u "  - " ++ token ++ u " (" ++ format_2f s0 ++ u ")")
      with ((newline :: u "  - ") ++ token ++ u " (" ++ format_2f s0 ++ u ")").
    rewrite !utf8_encodable_app.
    rewrite (token_encodable transcript token Ht (in_combine_l _ _ _ _ Hin)).
    rewrite (Hfmt s0 (in_combine_r _ _ _ _ Hin)). reflexivity. }
  change (fun wc : pystr * score =>
            f_write name (newline :: u "  - " ++ fst wc ++ u " ("
                                  ++ format_2f (snd wc) ++ u ")"))
    with (fun wc : pystr * score => f_write name (confidence_line wc)).
  rewrite (write_lines_ok name _ w2 (buf := buf2)); auto.
  - cbn [HINGLISH_TO_HINDI cwd trace w2]. rewrite store_store.
    unfold transcript_content. rewrite fold_write_confidence. reflexivity.
  - apply lookup_store_same.
Qed.

Lemma create_transcript_file_returns : forall file_path transcript scores w,
    exists w', create_transcript_file file_path transcript scores w = (Ok tt, w').
Proof.
  intros file_path transcript scores w.
  unfold create_transcript_file, try_except, path_exists.
  unfold bind at 1.
  destruct (lookup _ (cwd w)); [eexists; reflexivity |].
  match goal with
  | |- exists w', (match ?m with _ => _ end) = _ =>
      destruct m as [[[] | e] w1]; eexists; reflexivity
  end.
Qed.

Lemma create_transcript_file_new : forall file_path transcript scores w,
    lookup (output_path file_path) (cwd w) = None ->
    device_ok (output_path file_path) ->
    utf8_encodable (fst (splitext (basename file_path))) = true ->
    utf8_encodable transcript = true ->
    (forall s, In s (supplied scores) -> utf8_encodable (format_2f s) = true) ->
    create_transcript_file file_path transcript scores w =
    (Ok tt,
     {| HINGLISH_TO_HINDI := HINGLISH_TO_HINDI w;
        cwd := store (cwd w) (output_path file_path)
                 (transcript_content (fst (splitext (basename file_path)))
                    transcript scores);
        trace := trace w |}).
Proof.
  intros file_path transcript scores w Hnew [Hopen Hdev] Hbase Ht Hfmt.
  unfold output_path in *. unfold create_transcript_file.
  unfold bind at 1. unfold path_exists. rewrite Hnew.
  unfold try_except, get_trace. unfold bind at 1. rewrite Hopen.
  unfold bind at 1. unfold write_file.
  rewrite write_block_ok; auto.
  - cbn [HINGLISH_TO_HINDI cwd trace]. now rewrite store_store.
  - cbn [cwd]. apply lookup_store_same.
Qed.

End WriterFacts.

(** ** The format [.2f] *)





Section WriterFormat.

Context {RT : PyRuntime} {CO : Collaborators}.


End WriterFormat.

(** ** Lexicon loader *)

Section LoaderFacts.

Context {RT : PyRuntime} {CO : Collaborators} {CF : Confidence}.

Lemma for_each_app : forall (A : Type) (l1 l2 : list A) body w,
    for_each (l1 ++ l2) body w =
    match for_each l1 body w with
    | (Ok _, w1) => for_each l2 body w1
    | (Raise e, w1) => (Raise e, w1)
    end.
Proof.
  induction l1 as [| a l1 IH]; intros l2 body w; simpl.
  - reflexivity.
  - unfold bind. destruct (body a w) as [[[] | e] w0]; [apply IH | reflexivity].
Qed.

(** What one line does to the world: nothing but, at most, one item set. *)
Lemma load_line_effect : forall line w,
    (exists e, load_line line w = (Raise e, w))
    \/ (exists h v,
           load_line line w =
           (Ok tt, {| HINGLISH_TO_HINDI := dict_set (HINGLISH_TO_HINDI w) (str_lower h) v;
                      cwd := cwd w; trace := trace w |})).
Proof.
  intros [data |] w; [| left; eexists; reflexivity].
  unfold load_line, bind, lift.
  destruct (json_get data (u "translation") (JObj [])) as [translation | e] eqn:E1;
    [| left; eexists; reflexivity].
  destruct (json_get translation (u "hi_ng") (JStr [])) as [hinglish | e] eqn:E2;
    [| left; eexists; reflexivity].
  destruct (json_get translation (u "en") (JStr [])) as [hindi | e] eqn:E3;
    [| left; eexists; reflexivity].
  destruct hinglish as [| | | h | |]; simpl;
    try (left; eexists; reflexivity).
  right. exists h, hindi. reflexivity.
Qed.

Lemma for_each_load_frame : forall lines w,
    trace (snd (for_each lines load_line w)) = trace w
    /\ cwd (snd (for_each lines load_line w)) = cwd w.
Proof.
  induction lines as [| line lines IH]; intros w; simpl.
  - split; reflexivity.
  - unfold bind.
    destruct (load_line_effect line w) as [[e He] | [h [v He]]]; rewrite He.
    + split; reflexivity.
    + destruct (IH {| HINGLISH_TO_HINDI := dict_set (HINGLISH_TO_HINDI w) (str_lower h) v;
                      cwd := cwd w; trace := trace w |}) as [Ht Hc].
      split; assumption.
Qed.

Lemma dict_set_In : forall d k0 v0 k v,
    In (k, v) (dict_set d k0 v0) -> k = k0 \/ exists v', In (k, v') d.
Proof.
  induction d as [| [k' v'] d IH]; intros k0 v0 k v H; simpl in H.
  - destruct H as [H | []]. left. congruence.
  - destruct (pystr_eqb k' k0) eqn:E.
    + destruct H as [H | H].
      * apply pystr_eqb_eq in E. left. congruence.
      * right. exists v. now right.
    + destruct H as [H | H].
      * right. exists v'. left. congruence.
      * apply IH in H. destruct H as [H | [v1 H]]; [now left |].
        right. exists v1. now right.
Qed.

Lemma ascii_lower_not_upper : forall c, is_ascii_upper (ascii_lower c) = false.
Proof.
  intros c. unfold ascii_lower. destruct (is_ascii_upper c) eqn:E.
  - unfold is_ascii_upper in *. apply andb_true_iff in E. destruct E as [E1 E2].
    apply N.leb_le in E1, E2. apply andb_false_iff. right. apply N.leb_gt. lia.
  - exact E.
Qed.

Lemma str_lower_lower_cased : forall h, lower_cased (str_lower h).
Proof.
  intros h. exists h. split; [reflexivity |].
  intros Hh. unfold str_lower. rewrite Hh.
  apply forallb_forall. intros c Hc. apply in_map_iff in Hc.
  destruct Hc as [c0 [<- _]]. now rewrite ascii_lower_not_upper.
Qed.

Lemma for_each_load_keys : forall lines w k v,
    In (k, v) (HINGLISH_TO_HINDI (snd (for_each lines load_line w))) ->
    (exists v0, In (k, v0) (HINGLISH_TO_HINDI w)) \/ lower_cased k.
Proof.
  induction lines as [| line lines IH]; intros w k v H; simpl in H.
  - left. now exists v.
  - unfold bind in H.
    destruct (load_line_effect line w) as [[e He] | [h [v1 He]]]; rewrite He in H.
    + left. now exists v.
    + apply IH in H. destruct H as [[v0 H] | H]; [| now right].
      cbn [HINGLISH_TO_HINDI] in H. apply dict_set_In in H.
      destruct H as [-> | H]; [right; apply str_lower_lower_cased | now left].
Qed.

Lemma load_line_fields : forall line w,
    (exists e, load_line line w = (Raise e, w))
    \/ (exists h v,
           fields_of line = Some (h, v)
           /\ load_line line w =
              (Ok tt, {| HINGLISH_TO_HINDI := dict_set (HINGLISH_TO_HINDI w) (str_lower h) v;
                         cwd := cwd w; trace := trace w |})).
Proof.
  intros [data |] w; [| left; eexists; reflexivity].
  unfold load_line, fields_of, bind, lift, json_get.
  destruct data as [| b | n | s | l | fields]; try (left; eexists; reflexivity).
  destruct (lookup (u "translation") fields) as [translation |].
  - destruct translation as [| b | n | s | l | translation];
      try (left; eexists; reflexivity).
    destruct (lookup (u "hi_ng") translation) as [hinglish |].
    + destruct hinglish as [| b | n | h | l | o]; simpl;
        try (left; eexists; reflexivity).
      right. do 2 eexists. split; reflexivity.
    + right. do 2 eexists. split; reflexivity.
  - right. do 2 eexists. split; reflexivity.
Qed.

Lemma for_each_load_origin : forall lines w k v,
    In (k, v) (HINGLISH_TO_HINDI (snd (for_each lines load_line w))) ->
    (exists v0, In (k, v0) (HINGLISH_TO_HINDI w))
    \/ (exists line hinglish hindi,
           In line lines /\ fields_of line = Some (hinglish, hindi)
           /\ k = str_lower hinglish /\ lower_cased k).
Proof.
  induction lines as [| line lines IH]; intros w k v H; simpl in H.
  - left. now exists v.
  - unfold bind in H.
    destruct (load_line_fields line w) as [[e He] | [h [v1 [Hf He]]]]; rewrite He in H.
    + left. now exists v.
    + apply IH in H. destruct H as [[v0 H] | [l [h0 [v2 [Hl [Hf0 [Hk Hlow]]]]]]].
      * cbn [HINGLISH_TO_HINDI] in H. apply dict_set_In in H.
        destruct H as [-> | H]; [| now left].
        right. exists line, h, v1. repeat split; try assumption.
        -- now left.
        -- apply str_lower_lower_cased.
      * right. exists l, h0, v2. repeat split; try assumption. now right.
Qed.

(** C7 (amended): whatever the dataset, and whether or not the load runs
    to its end, every key the loader adds is the lower-cased Hinglish field
    of one of the dataset's lines, the field being the empty string when
    the line has none; so every such key is stored lower-cased, and a key
    may be the empty string. *)
Theorem lexicon_keys_lower_cased :
  forall file_path w r w',
    load_hinglish_mapping file_path w = (r, w') ->
    forall k v,
      In (k, v) (HINGLISH_TO_HINDI w') ->
      (exists v0, In (k, v0) (HINGLISH_TO_HINDI w))
      \/ (exists lines line hinglish hindi,
             open_dataset file_path = Some lines
             /\ In line lines
             /\ fields_of line = Some (hinglish, hindi)
             /\ k = str_lower hinglish
             /\ lower_cased k).
Proof.
  intros file_path w r w' Hload k v Hin.
  unfold load_hinglish_mapping in Hload.
  destruct (open_dataset file_path) as [lines |] eqn:Hopen.
  - destruct (for_each_load_origin lines w k v) as [H | [l [h [v1 H]]]].
    + rewrite Hload. exact Hin.
    + now left.
    + right. exists lines, l, h, v1. split; [reflexivity | exact H].
  - unfold raise in Hload. injection Hload as _ <-. left. now exists v.
Qed.

(** C8: if the dataset file is missing, or one of its lines does not
    parse, the load raises, [main] lets the exception through, and at that
    point nothing has been recognised, logged or written; the lines after a
    bad line are never read. *)
Theorem lexicon_load_fatal :
  forall a w,
    (open_dataset dataset_path = None
     \/ exists lines, open_dataset dataset_path = Some lines /\ In None lines) ->
    exists e w1,
      load_hinglish_mapping dataset_path w = (Raise e, w1)
      /\ main a w = (Raise e, w1)
      /\ trace w1 = trace w
      /\ cwd w1 = cwd w
      /\ (forall pre post,
             open_dataset dataset_path = Some (pre ++ None :: post) ->
             w1 = snd (for_each pre load_line w)).
Proof.
  intros a w [Hmiss | [lines [Hopen Hbad]]].
  - exists FileNotFoundError, w.
    unfold main, bind, load_hinglish_mapping. rewrite Hmiss.
    repeat split; try reflexivity.
    intros pre post H. discriminate.
  - apply in_split in Hbad. destruct Hbad as [pre [post ->]].
    assert (Hrun : exists e,
               for_each (pre ++ None :: post) load_line w
               = (Raise e, snd (for_each pre load_line w))).
    { rewrite for_each_app.
      destruct (for_each pre load_line w) as [[[] | e] w1]; simpl.
      - exists JSONDecodeError. reflexivity.
      - exists e. reflexivity. }
    destruct Hrun as [e Hrun].
    exists e, (snd (for_each pre load_line w)).
    destruct (for_each_load_frame pre w) as [Ht Hc].
    unfold main, bind, load_hinglish_mapping. rewrite Hopen, Hrun.
    repeat split; try assumption.
    intros pre' post' H. injection H as H.
    assert (Hrun' : exists e',
               for_each (pre' ++ None :: post') load_line w
               = (Raise e', snd (for_each pre' load_line w))).
    { rewrite for_each_app.
      destruct (for_each pre' load_line w) as [[[] | e'] w1]; simpl.
      - exists JSONDecodeError. reflexivity.
      - exists e'. reflexivity. }
    destruct Hrun' as [e' Hrun']. rewrite <- H in Hrun'. rewrite Hrun in Hrun'.
    now injection Hrun' as _ ->.
Qed.

End LoaderFacts.

(** ** Audio pipeline *)

Ltac run_py :=
  unfold translate_text;
  unfold call_recognizer, call_detect, call_translate, logging;
  unfold bind, try_except, lift, ret, raise, emit, get_trace, get_lexicon,
    path_exists, write_file;
  cbn [trace cwd HINGLISH_TO_HINDI fst snd].

Ltac prefix_of L tr :=
  match L with
  | tr => constr:(@nil event)
  | ?a :: ?L' => let r := prefix_of L' tr in constr:(a :: r)
  end.

Ltac trace_prefix :=
  match goal with
  | |- exists evs, ?L = evs ++ ?tr /\ _ => let r := prefix_of L tr in exists r
  | |- exists evs, ?L = evs ++ ?tr => let r := prefix_of L tr in exists r
  end.

(** *** How computations compose *)

Lemma grows_refl : forall w, grows w w.
Proof. intros w. split; [reflexivity | now exists []]. Qed.

Lemma grows_trans : forall w1 w2 w3, grows w1 w2 -> grows w2 w3 -> grows w1 w3.
Proof.
  intros w1 w2 w3 [L1 [e1 T1]] [L2 [e2 T2]]. split; [congruence |].
  exists (e2 ++ e1). rewrite T2, T1. apply app_assoc.
Qed.

Lemma quiet_refl : forall w, quiet w w.
Proof. intros w. split; [apply grows_refl | reflexivity]. Qed.

Lemma quiet_trans : forall w1 w2 w3, quiet w1 w2 -> quiet w2 w3 -> quiet w1 w3.
Proof.
  intros w1 w2 w3 [G1 C1] [G2 C2]. split; [now apply grows_trans with w2 | congruence].
Qed.

Lemma touches_refl : forall name w, touches name w w.
Proof. intros name w. split; [apply grows_refl | reflexivity]. Qed.

Lemma touches_trans : forall name w1 w2 w3,
    touches name w1 w2 -> touches name w2 w3 -> touches name w1 w3.
Proof.
  intros name w1 w2 w3 [G1 C1] [G2 C2]. split; [now apply grows_trans with w2 |].
  intros other H. rewrite C2, C1; auto.
Qed.

Lemma quiet_touches : forall name w w', quiet w w' -> touches name w w'.
Proof. intros name w w' [G C]. split; [exact G |]. intros other _. now rewrite C. Qed.

Section Keeps.

Variable R : world -> world -> Prop.
Hypothesis R_refl : forall w, R w w.
Hypothesis R_trans : forall w1 w2 w3, R w1 w2 -> R w2 w3 -> R w1 w3.

Lemma keeps_ret : forall (A : Type) (a : A), keeps R (ret a).
Proof. intros A a w. apply R_refl. Qed.

Lemma keeps_raise : forall (A : Type) (e : exn), keeps R (@raise A e).
Proof. intros A e w. apply R_refl. Qed.

Lemma keeps_lift : forall (A : Type) (r : outcome A), keeps R (lift r).
Proof. intros A r w. apply R_refl. Qed.

Lemma keeps_get_trace : keeps R get_trace.
Proof. intros w. apply R_refl. Qed.

Lemma keeps_get_lexicon : keeps R get_lexicon.
Proof. intros w. apply R_refl. Qed.

Lemma keeps_path_exists : forall name, keeps R (path_exists name).
Proof. intros name w. apply R_refl. Qed.

Lemma keeps_bind : forall (A B : Type) (m : M A) (k : A -> M B),
    keeps R m -> (forall a, keeps R (k a)) -> keeps R (bind m k).
Proof.
  intros A B m k Hm Hk w. unfold bind. specialize (Hm w).
  destruct (m w) as [[a | e] w1]; simpl in *; [| exact Hm].
  apply R_trans with w1; [exact Hm | apply Hk].
Qed.

Lemma keeps_try : forall (A : Type) (m : M A) (handler : exn -> M A),
    keeps R m -> (forall e, keeps R (handler e)) -> keeps R (try_except m handler).
Proof.
  intros A m handler Hm Hh w. unfold try_except. specialize (Hm w).
  destruct (m w) as [[a | e] w1]; simpl in *; [exact Hm |].
  apply R_trans with w1; [exact Hm | apply Hh].
Qed.

Lemma keeps_for_each : forall (A : Type) (l : list A) (body : A -> M unit),
    (forall a, keeps R (body a)) -> keeps R (for_each l body).
Proof.
  intros A l body Hb. induction l as [| a l IH]; simpl.
  - apply keeps_ret.
  - apply keeps_bind; [apply Hb | intros _; exact IH].
Qed.

End Keeps.

Lemma keeps_weaken : forall (A : Type) (R R' : world -> world -> Prop) (m : M A),
    (forall w w', R w w' -> R' w w') -> keeps R m -> keeps R' m.
Proof. intros A R R' m H Hm w. apply H, Hm. Qed.

Lemma keeps_emit : forall e, keeps quiet (emit e).
Proof.
  intros e w. split; [split |]; simpl; [reflexivity | now exists [e] | reflexivity].
Qed.

Ltac keeps_quiet :=
  repeat first
    [ apply (@keeps_bind quiet quiet_trans); [| intros]
    | apply (@keeps_try quiet quiet_trans); [| intros]
    | apply (@keeps_ret quiet quiet_refl)
    | apply (@keeps_raise quiet quiet_refl)
    | apply (@keeps_lift quiet quiet_refl)
    | apply (@keeps_get_trace quiet quiet_refl)
    | apply (@keeps_get_lexicon quiet quiet_refl)
    | apply keeps_emit
    | match goal with
      | |- keeps _ (match ?x with _ => _ end) => destruct x
      end ].

Section PipelineFacts.

Context {RT : PyRuntime} {CO : Collaborators} {CF : Confidence}.

Lemma detect_and_transcribe_ok : forall file_path w raw t lang,
    recognize_google (trace w) file_path = Ok raw ->
    preprocess_text (HINGLISH_TO_HINDI w) raw = Ok t ->
    detect (Recognize file_path :: trace w) t = Ok lang ->
    detect_and_transcribe file_path w =
    (Ok (Some lang, Some t),
     {| HINGLISH_TO_HINDI := HINGLISH_TO_HINDI w;
        cwd := cwd w;
        trace := Log INFO :: Detect t :: Recognize file_path :: trace w |}).
Proof.
  intros file_path w raw t lang Hr Hp Hd.
  unfold detect_and_transcribe. run_py. rewrite Hr, Hp. run_py. rewrite Hd.
  reflexivity.
Qed.

Lemma detect_and_transcribe_frame : forall file_path w,
    exists r w1,
      detect_and_transcribe file_path w = (Ok r, w1)
      /\ cwd w1 = cwd w
      /\ HINGLISH_TO_HINDI w1 = HINGLISH_TO_HINDI w
      /\ exists evs, trace w1 = evs ++ Recognize file_path :: trace w.
Proof.
  intros file_path w. unfold detect_and_transcribe. run_py.
  destruct (recognize_google (trace w) file_path) as [raw | e].
  - destruct (preprocess_text (HINGLISH_TO_HINDI w) raw) as [t | e]; run_py.
    + destruct (detect _ t) as [lang | e]; [| destruct e];
        do 2 eexists; (split; [reflexivity |]); cbn [cwd HINGLISH_TO_HINDI trace];
        (split; [reflexivity |]); (split; [reflexivity |]);
        trace_prefix; reflexivity.
    + destruct e; do 2 eexists; (split; [reflexivity |]);
        cbn [cwd HINGLISH_TO_HINDI trace];
        (split; [reflexivity |]); (split; [reflexivity |]);
        trace_prefix; reflexivity.
  - destruct e; do 2 eexists; (split; [reflexivity |]);
      cbn [cwd HINGLISH_TO_HINDI trace];
      (split; [reflexivity |]); (split; [reflexivity |]);
      trace_prefix; reflexivity.
Qed.

Lemma translate_text_quiet : forall text source_lang,
    keeps quiet (translate_text text source_lang).
Proof.
  intros text source_lang. unfold translate_text, call_translate, logging.
  keeps_quiet.
Qed.

Lemma translate_text_returns : forall text source_lang w,
    new_translator (trace w) = Ok tt ->
    exists r w1, translate_text text source_lang w = (Ok r, w1).
Proof.
  intros text source_lang w Hnew. run_py. rewrite Hnew.
  destruct (translate (trace w) text source_lang); do 2 eexists; reflexivity.
Qed.

Lemma translate_audio_to_text_frame : forall file_path w,
    let w1 := snd (translate_audio_to_text file_path w) in
    cwd w1 = cwd w
    /\ HINGLISH_TO_HINDI w1 = HINGLISH_TO_HINDI w
    /\ exists evs, trace w1 = evs ++ Recognize file_path :: trace w.
Proof.
  intros file_path w. unfold translate_audio_to_text, bind.
  destruct (detect_and_transcribe_frame file_path w)
    as [[lang t] [w1 [Hrun [Hcwd [Hlex Htr]]]]].
  rewrite Hrun.
  destruct lang as [lang |], t as [t |]; try (cbn [snd]; now repeat split).
  destruct (negb (pystr_eqb lang (u "en"))); [| cbn [snd]; now repeat split].
  destruct (translate_text_quiet t lang w1) as [[Hl [evs2 Ht2]] Hc].
  destruct Htr as [evs1 Ht1].
  assert (Hall : cwd (snd (translate_text t lang w1)) = cwd w
                 /\ HINGLISH_TO_HINDI (snd (translate_text t lang w1))
                    = HINGLISH_TO_HINDI w
                 /\ exists evs, trace (snd (translate_text t lang w1))
                                = evs ++ Recognize file_path :: trace w).
  { split; [congruence |]. split; [congruence |].
    exists (evs2 ++ evs1). rewrite Ht2, Ht1. apply app_assoc. }
  destruct (translate_text t lang w1) as [[r | e] w2]; cbn [snd] in *;
    [| exact Hall].
  destruct (truthy r); exact Hall.
Qed.

Lemma f_write_touches : forall name data, keeps (touches name) (f_write name data).
Proof.
  intros name data w. unfold f_write.
  destruct (negb (utf8_encodable data)); [apply touches_refl |].
  destruct (write_ok _ _ _ _); [| apply touches_refl].
  split; [split; [reflexivity | now exists []] |]. intros other Hne. simpl.
  now apply lookup_store_other.
Qed.

Lemma write_file_touches : forall name content, keeps (touches name) (write_file name content).
Proof.
  intros name content w. split; [split; [reflexivity | now exists []] |].
  intros other Hne. simpl.
  now apply lookup_store_other.
Qed.

Lemma write_block_touches : forall name base transcript scores,
    keeps (touches name) (write_block name base transcript scores).
Proof.
  intros name base transcript scores. unfold write_block.
  apply (@keeps_bind _ (@touches_trans name)); [apply f_write_touches | intros _].
  apply (@keeps_bind _ (@touches_trans name)); [apply f_write_touches | intros _].
  destruct scores as [[| sc scores] |]; try apply (@keeps_ret _ (@touches_refl name)).
  apply (@keeps_for_each _ (@touches_refl name) (@touches_trans name)).
  intros wc. apply f_write_touches.
Qed.

Lemma create_transcript_file_touches : forall file_path transcript scores,
    keeps (touches (output_path file_path))
          (create_transcript_file file_path transcript scores).
Proof.
  intros file_path transcript scores. unfold create_transcript_file.
  fold (output_path file_path).
  apply (@keeps_bind _ (@touches_trans _));
    [apply (@keeps_path_exists _ (@touches_refl _)) | intros found].
  destruct found.
  - apply keeps_weaken with quiet; [apply quiet_touches | apply keeps_emit].
  - apply (@keeps_try _ (@touches_trans _)).
    + apply (@keeps_bind _ (@touches_trans _));
        [apply (@keeps_get_trace _ (@touches_refl _)) | intros h].
      destruct (open_w h (output_path file_path));
        [| apply (@keeps_raise _ (@touches_refl _))].
      apply (@keeps_bind _ (@touches_trans _));
        [apply write_file_touches | intros _; apply write_block_touches].
    + intros e. apply keeps_weaken with quiet; [apply quiet_touches | apply keeps_emit].
Qed.

Lemma create_transcript_file_existing : forall file_path transcript scores w c,
    lookup (output_path file_path) (cwd w) = Some c ->
    create_transcript_file file_path transcript scores w =
    (Ok tt, {| HINGLISH_TO_HINDI := HINGLISH_TO_HINDI w;
               cwd := cwd w;
               trace := Log INFO :: trace w |}).
Proof.
  intros file_path transcript scores w c Hc. unfold output_path in Hc.
  unfold create_transcript_file. unfold bind at 1. unfold path_exists.
  now rewrite Hc.
Qed.

(** What a run of [process_file] leaves behind, however it ends. *)
Lemma process_file_frame : forall file_path b w,
    let w' := snd (process_file file_path b w) in
    HINGLISH_TO_HINDI w' = HINGLISH_TO_HINDI w
    /\ (forall name, name <> output_path file_path ->
                     lookup name (cwd w') = lookup name (cwd w))
    /\ (forall c, lookup (output_path file_path) (cwd w) = Some c -> cwd w' = cwd w)
    /\ exists evs,
        trace w' = evs ++ trace w
        /\ (In (Recognize file_path) evs
            <-> is_valid_file file_path && is_supported_format file_path = true).
Proof.
  intros file_path b w. unfold process_file.
  destruct (is_valid_file file_path); cbn [negb orb andb].
  2: { cbn. repeat split; auto. exists [Log ERROR]. split; [reflexivity |].
       simpl. intuition discriminate. }
  destruct (is_supported_format file_path); cbn [negb].
  2: { cbn. repeat split; auto. exists [Log ERROR]. split; [reflexivity |].
       simpl. intuition discriminate. }
  unfold bind.
  destruct (translate_audio_to_text_frame file_path w) as [Hcwd [Hlex [evs1 Ht1]]].
  destruct (translate_audio_to_text file_path w) as [[[t |] | e] w1];
    cbn [snd] in *.
  - destruct (create_transcript_file_touches file_path t None w1)
      as [[Hl2 [evs2 Ht2]] Hother].
    split; [congruence |]. split; [| split].
    + intros name Hne. rewrite Hother by assumption. now rewrite Hcwd.
    + intros c Hc. rewrite <- Hcwd in Hc.
      rewrite (create_transcript_file_existing _ _ _ _ Hc). cbn [snd cwd].
      exact Hcwd.
    + exists (evs2 ++ evs1 ++ [Recognize file_path]). split.
      * rewrite Ht2, Ht1. rewrite <- !app_assoc. reflexivity.
      * split; [reflexivity |]. intros _. apply in_or_app. right.
        apply in_or_app. right. now left.
  - simpl. split; [exact Hlex |]. split; [| split].
    + intros name _. now rewrite Hcwd.
    + intros c _. exact Hcwd.
    + exists (evs1 ++ [Recognize file_path]). split.
      * rewrite Ht1. rewrite <- app_assoc. reflexivity.
      * split; [reflexivity |]. intros _. apply in_or_app. right. now left.
  - simpl. split; [exact Hlex |]. split; [| split].
    + intros name _. now rewrite Hcwd.
    + intros c _. exact Hcwd.
    + exists (evs1 ++ [Recognize file_path]). split.
      * rewrite Ht1. rewrite <- app_assoc. reflexivity.
      * split; [reflexivity |]. intros _. apply in_or_app. right. now left.
Qed.

(** The transcript that [translate_audio_to_text] settles on when the
    translator has been constructed. *)
Lemma translate_audio_to_text_result : forall file_path w raw t lang,
    recognize_google (trace w) file_path = Ok raw ->
    preprocess_text (HINGLISH_TO_HINDI w) raw = Ok t ->
    detect (Recognize file_path :: trace w) t = Ok lang ->
    lang <> u "en" ->
    let h := Log INFO :: Detect t :: Recognize file_path :: trace w in
    new_translator h = Ok tt ->
    exists w1,
      translate_audio_to_text file_path w =
      (Ok (Some (final_transcript (translate h t lang) t)), w1)
      /\ cwd w1 = cwd w
      /\ exists evs, trace w1 = evs ++ Translate t lang :: h.
Proof.
  intros file_path w raw t lang Hr Hp Hd Hlang h Hnew.
  unfold translate_audio_to_text, bind.
  rewrite (detect_and_transcribe_ok _ _ Hr Hp Hd).
  apply pystr_eqb_neq in Hlang. rewrite Hlang. cbn [negb]. run_py. fold h.
  rewrite Hnew.
  destruct (translate h t lang) as [[| c s] | e]; simpl;
    eexists; (split; [reflexivity |]); (split; [reflexivity |]);
    cbn [trace]; trace_prefix; reflexivity.
Qed.

Lemma process_file_writes : forall file_path b w t w1,
    is_valid_file file_path = true ->
    is_supported_format file_path = true ->
    translate_audio_to_text file_path w = (Ok (Some t), w1) ->
    cwd w1 = cwd w ->
    lookup (output_path file_path) (cwd w) = None ->
    device_ok (output_path file_path) ->
    utf8_encodable (fst (splitext (basename file_path))) = true ->
    utf8_encodable t = true ->
    lookup (output_path file_path) (cwd (snd (process_file file_path b w)))
    = Some (plain_content file_path t).
Proof.
  intros file_path b w t w1 Hv Hs Hrun Hcwd Hnew Hdev Hbase Ht.
  unfold process_file. rewrite Hv, Hs. simpl. unfold bind. rewrite Hrun.
  rewrite create_transcript_file_new; try assumption.
  - cbn [snd cwd]. rewrite lookup_store_same. unfold plain_content, transcript_content.
    now rewrite <- !app_assoc.
  - now rewrite Hcwd.
  - intros s [].
Qed.

(** C5 (amended): for a file recognised as [raw], normalised to [t] and
    detected as a language other than "en", once the translator has been
    constructed: if the call to it raises, the transcript written is [t];
    if it returns a non-empty text, that text is written instead; if it
    returns the empty text, [t] is written; in every case [process_file]
    returns normally, so the batch goes on. *)
Theorem translation_fallback :
  forall file_path translate_to_english w raw t lang,
    recognize_google (trace w) file_path = Ok raw ->
    preprocess_text (HINGLISH_TO_HINDI w) raw = Ok t ->
    detect (Recognize file_path :: trace w) t = Ok lang ->
    lang <> u "en" ->
    let h := Log INFO :: Detect t :: Recognize file_path :: trace w in
    new_translator h = Ok tt ->
    (forall e, translate h t lang = Raise e ->
               written file_path translate_to_english w t)
    /\ (forall s, translate h t lang = Ok s -> s <> [] ->
                  written file_path translate_to_english w s)
    /\ (translate h t lang = Ok [] ->
        written file_path translate_to_english w t)
    /\ (exists w', process_file file_path translate_to_english w = (Ok tt, w')).
Proof.
  intros file_path b w raw t lang Hr Hp Hd Hlang h Hnew.
  destruct (translate_audio_to_text_result _ _ Hr Hp Hd Hlang Hnew)
    as [w1 [Hrun [Hcwd _]]].
  fold h in Hrun.
  assert (Hw : written file_path b w (final_transcript (translate h t lang) t)).
  { split; [now rewrite Hrun |].
    intros Hv Hs Hnone Hdev Hbase Hx. now apply process_file_writes with w1. }
  split; [| split; [| split]].
  - intros e He. now rewrite He in Hw.
  - intros s He Hne. destruct s as [| c s]; [contradiction |]. now rewrite He in Hw.
  - intros He. now rewrite He in Hw.
  - unfold process_file.
    destruct (negb (is_valid_file file_path) || negb (is_supported_format file_path));
      [eexists; reflexivity |].
    unfold bind. rewrite Hrun. apply create_transcript_file_returns.
Qed.

(** The flag is accepted and dropped. *)
Lemma process_file_ignores_flag : forall file_path b1 b2 w,
    process_file file_path b1 w = process_file file_path b2 w.
Proof. reflexivity. Qed.

Lemma process_file_returns : forall file_path b w,
    (forall h, new_translator h = Ok tt) ->
    exists w', process_file file_path b w = (Ok tt, w').
Proof.
  intros file_path b w Hnew. unfold process_file.
  destruct (negb (is_valid_file file_path) || negb (is_supported_format file_path));
    [eexists; reflexivity |].
  unfold bind, translate_audio_to_text. unfold bind.
  destruct (detect_and_transcribe_frame file_path w) as [[lang t] [w1 [Hrun _]]].
  rewrite Hrun.
  destruct lang as [lang |], t as [t |]; try (eexists; reflexivity).
  destruct (negb (pystr_eqb lang (u "en")));
    [| unfold ret; apply create_transcript_file_returns].
  destruct (translate_text_returns t lang w1 (Hnew _)) as [r [w2 Htt]].
  rewrite Htt. destruct (truthy r) eqn:Er; unfold ret.
  - destruct r as [x |]; [| discriminate]. apply create_transcript_file_returns.
  - apply create_transcript_file_returns.
Qed.

(** C1 (amended): when the transcript of an input already exists, the run
    leaves the working directory exactly as it was (the artifact is not
    rewritten and nothing else is created), so a second run after a run
    that wrote the artifact changes nothing; a run never touches any name
    but the input's own artifact; the existence check comes after
    recognition, so a valid supported input is still sent to the
    recogniser, and when its language is not English and the translator
    can be constructed, to the translator; the run returns normally when
    the translator can be constructed. *)
Theorem existing_transcript_kept :
  forall file_path translate_to_english w c,
    lookup (output_path file_path) (cwd w) = Some c ->
    let w' := snd (process_file file_path translate_to_english w) in
    cwd w' = cwd w
    /\ cwd (snd (process_file file_path translate_to_english w')) = cwd w'
    /\ (forall w0 name, name <> output_path file_path ->
          lookup name (cwd (snd (process_file file_path translate_to_english w0)))
          = lookup name (cwd w0))
    /\ (is_valid_file file_path = true -> is_supported_format file_path = true ->
        In (Recognize file_path) (trace w'))
    /\ (is_valid_file file_path = true -> is_supported_format file_path = true ->
        forall raw t lang,
          recognize_google (trace w) file_path = Ok raw ->
          preprocess_text (HINGLISH_TO_HINDI w) raw = Ok t ->
          detect (Recognize file_path :: trace w) t = Ok lang ->
          lang <> u "en" ->
          new_translator (Log INFO :: Detect t :: Recognize file_path :: trace w)
          = Ok tt ->
          In (Translate t lang) (trace w'))
    /\ ((forall h, new_translator h = Ok tt) ->
        fst (process_file file_path translate_to_english w) = Ok tt).
Proof.
  intros file_path b w c Hc w'.
  destruct (process_file_frame file_path b w) as [_ [_ [Hsame [evs [Ht Hrec]]]]].
  fold w' in Hsame, Ht.
  assert (Hcwd : cwd w' = cwd w) by now apply Hsame with c.
  split; [exact Hcwd |]. split; [| split; [| split; [| split]]].
  - destruct (process_file_frame file_path b w') as [_ [_ [Hsame2 _]]].
    apply Hsame2 with c. now rewrite Hcwd.
  - intros w0 name Hne.
    destruct (process_file_frame file_path b w0) as [_ [Hother _]].
    now apply Hother.
  - intros Hv Hs. rewrite Ht. apply in_or_app. left. apply Hrec.
    now rewrite Hv, Hs.
  - intros Hv Hs raw t lang Hr Hp Hd Hlang Hnew.
    destruct (translate_audio_to_text_result _ _ Hr Hp Hd Hlang Hnew)
      as [w1 [Hrun [Hcwd1 [evs1 Ht1]]]].
    unfold w', process_file. rewrite Hv, Hs. cbn [negb orb]. unfold bind.
    rewrite Hrun.
    destruct (create_transcript_file_touches file_path
                (final_transcript
                   (translate (Log INFO :: Detect t :: Recognize file_path :: trace w)
                              t lang) t) None w1) as [[_ [evs2 Ht2]] _].
    rewrite Ht2, Ht1. apply in_or_app. right. apply in_or_app. right. now left.
  - intros Hnew. destruct (process_file_returns file_path b w Hnew) as [w2 Hrun].
    now rewrite Hrun.
Qed.

(** ** Directory walker *)

Lemma for_each_ext : forall (A : Type) (l : list A) f g w,
    (forall a w0, f a w0 = g a w0) -> for_each l f w = for_each l g w.
Proof.
  induction l as [| a l IH]; intros f g w H; simpl; [reflexivity |].
  unfold bind. rewrite H. destruct (g a w) as [[[] | e] w1]; [now apply IH | reflexivity].
Qed.

Lemma for_each_filter : forall (A : Type) (P : A -> bool) (l : list A) body w,
    for_each l (fun a => if P a then body a else ret tt) w
    = for_each (filter P l) body w.
Proof.
  induction l as [| a l IH]; intros body w; simpl; [reflexivity |].
  destruct (P a); simpl; unfold bind.
  - destruct (body a w) as [[[] | e] w1]; [apply IH | reflexivity].
  - unfold ret. apply IH.
Qed.

Lemma for_each_map : forall (A B : Type) (g : A -> B) (l : list A) body w,
    for_each (map g l) body w = for_each l (fun a => body (g a)) w.
Proof.
  induction l as [| a l IH]; intros body w; simpl; [reflexivity |].
  unfold bind. destruct (body (g a) w) as [[[] | e] w1]; [apply IH | reflexivity].
Qed.

Lemma for_each_flat_map : forall (A B : Type) (g : A -> list B) (l : list A) body w,
    for_each l (fun a => for_each (g a) body) w = for_each (flat_map g l) body w.
Proof.
  induction l as [| a l IH]; intros body w; simpl; [reflexivity |].
  rewrite for_each_app. unfold bind.
  destruct (for_each (g a) body w) as [[[] | e] w1]; [apply IH | reflexivity].
Qed.

(** With recursion requested, the files processed are the supported ones
    of the whole subtree. *)
Lemma process_directory_recursive : forall directory_path t b w,
    listdir directory_path = Some t ->
    process_directory directory_path true b w
    = for_each (filter is_supported_format (walked_files (walk directory_path t)))
               (fun file_path => process_file file_path b) w.
Proof.
  intros directory_path t b w Hdir.
  unfold process_directory, isdir, os_walk. rewrite Hdir. simpl negb. cbv iota.
  unfold bind, lift. unfold walked_files.
  rewrite <- for_each_filter, <- for_each_flat_map.
  apply for_each_ext. intros triple w0. rewrite for_each_map. reflexivity.
Qed.

(** C2: without recursion the walker hands [os.walk] a list instead of a
    path; the call raises TypeError before any file is looked at, and the
    exception leaves [process_directory]. *)
Theorem process_directory_flat_raises :
  forall directory_path translate_to_english w,
    isdir directory_path = true ->
    process_directory directory_path false translate_to_english w
    = (Raise TypeError, w).
Proof.
  intros directory_path b w Hdir.
  unfold process_directory. rewrite Hdir. reflexivity.
Qed.

End PipelineFacts.

(** ** Text normaliser *)

Section NormaliserFacts.

Context {RT : PyRuntime}.

Lemma alnum_range : forall c,
    is_ascii_alnum c = true ->
    (65 <= c <= 90 \/ 97 <= c <= 122 \/ 48 <= c <= 57)%N.
Proof.
  intros c H. unfold is_ascii_alnum, is_ascii_upper, is_ascii_lower, is_ascii_digit in H.
  apply orb_true_iff in H. destruct H as [H | H];
    [apply orb_true_iff in H; destruct H as [H | H] |];
    apply andb_true_iff in H; destruct H as [H1 H2];
    apply N.leb_le in H1, H2; lia.
Qed.

Lemma range_alnum : forall c,
    (65 <= c <= 90 \/ 97 <= c <= 122 \/ 48 <= c <= 57)%N ->
    is_ascii_alnum c = true.
Proof.
  intros c H. unfold is_ascii_alnum, is_ascii_upper, is_ascii_lower, is_ascii_digit.
  destruct H as [[H1 H2] | [[H1 H2] | [H1 H2]]];
    apply N.leb_le in H1, H2; rewrite H1, H2; simpl;
    repeat rewrite orb_true_r; reflexivity.
Qed.

Lemma alnum_is_ascii : forall c, is_ascii_alnum c = true -> is_ascii c = true.
Proof.
  intros c H. apply alnum_range in H. apply N.ltb_lt. lia.
Qed.

Lemma alnum_plain_char : forall c,
    is_ascii_alnum c = true ->
    N.eqb c backslash = false /\ N.eqb c 46 = false /\ N.eqb c 40 = false
    /\ N.eqb c 41 = false /\ is_unmodelled_special c = false.
Proof.
  intros c H. apply alnum_range in H.
  assert (Hne : forall k, (k < 48 \/ 57 < k < 65 \/ 90 < k < 97 \/ 122 < k)%N ->
                          N.eqb c k = false).
  { intros k Hk. apply N.eqb_neq. lia. }
  unfold is_unmodelled_special, backslash. simpl existsb.
  rewrite !Hne by lia. repeat split.
Qed.

Lemma ascii_lower_alnum : forall k t,
    is_ascii_alnum k = true -> ascii_lower k = ascii_lower t -> is_ascii_alnum t = true.
Proof.
  intros k t Hk E. apply alnum_range in Hk. apply range_alnum.
  unfold ascii_lower, is_ascii_upper in E.
  destruct (N.leb_spec 65 k), (N.leb_spec k 90), (N.leb_spec 65 t), (N.leb_spec t 90);
    simpl in E; lia.
Qed.

Lemma ci_match_word : forall k t,
    is_ascii_alnum k = true -> ci_match k t = true -> is_word t = true.
Proof.
  intros k t Hk Hm. unfold ci_match in Hm. rewrite (alnum_is_ascii _ Hk) in Hm.
  unfold is_word, isalnum. destruct (is_ascii t) eqn:Ht; simpl in Hm.
  - apply N.eqb_eq in Hm. now rewrite (ascii_lower_alnum _ _ Hk Hm).
  - now rewrite (ext_ci_word _ _ Hk Ht Hm).
Qed.

Lemma parse_alnum : forall key s,
    forallb is_ascii_alnum key = true ->
    parse_pattern (key ++ s) = syntax_map (app (map ALit key)) (parse_pattern s).
Proof.
  induction key as [| c key IH]; intros s Hk; simpl.
  - destruct (parse_pattern s); reflexivity.
  - simpl in Hk. apply andb_true_iff in Hk. destruct Hk as [Hc Hk].
    destruct (alnum_plain_char _ Hc) as [H1 [H2 [H3 [H4 H5]]]].
    rewrite H1, H2, H3, H4, H5, (IH s Hk).
    destruct (parse_pattern s); reflexivity.
Qed.

Lemma parse_key_pattern : forall key,
    forallb is_ascii_alnum key = true ->
    parse_pattern (u "\b" ++ key ++ u "\b")
    = Modelled (ABoundary :: map ALit key ++ [ABoundary]).
Proof.
  intros key Hk. change (u "\b" ++ key ++ u "\b")
    with (backslash :: 98%N :: (key ++ u "\b")).
  cbn [parse_pattern]. rewrite N.eqb_refl. cbn [N.eqb Pos.eqb].
  rewrite (parse_alnum _ _ Hk). reflexivity.
Qed.

Lemma expand_plain : forall hindi,
    no_backslash hindi = true -> expand_template hindi = Modelled hindi.
Proof.
  induction hindi as [| c r IH]; intros H; simpl; [reflexivity |].
  simpl in H. apply andb_true_iff in H. destruct H as [Hc Hr].
  apply negb_true_iff in Hc. rewrite Hc, (IH Hr). reflexivity.
Qed.

Lemma word_prefix_rest : forall s,
    word_prefix s ++ word_rest s = s
    /\ forallb is_word (word_prefix s) = true
    /\ word_here (word_rest s) = false.
Proof.
  induction s as [| c s [IH1 [IH2 IH3]]]; simpl; [repeat split |].
  destruct (is_word c) eqn:E; simpl.
  - rewrite IH1, E, IH2. repeat split. exact IH3.
  - rewrite E. repeat split.
Qed.

Lemma match_lits : forall key prev s,
    match_atoms (map ALit key ++ [ABoundary]) prev s
    = if lit_match key prev s then Some (length key) else None.
Proof.
  induction key as [| k key IH]; intros prev s; simpl.
  - destruct (at_boundary prev s); reflexivity.
  - destruct s as [| t s]; [reflexivity |].
    destruct (ci_match k t); simpl; [| reflexivity].
    rewrite IH. destruct (lit_match key (Some t) s); reflexivity.
Qed.

Lemma ci_equal_length : forall key w, ci_equal key w = true -> length key = length w.
Proof.
  induction key as [| k key IH]; destruct w as [| t w]; simpl; intros H;
    try discriminate; [reflexivity |].
  apply andb_true_iff in H. destruct H as [_ H]. f_equal. now apply IH.
Qed.

Lemma ci_match_nonword : forall k t,
    is_ascii_alnum k = true -> is_word t = false -> ci_match k t = false.
Proof.
  intros k t Hk Ht. destruct (ci_match k t) eqn:E; [| reflexivity].
  apply (ci_match_word _ _ Hk) in E. congruence.
Qed.

Lemma lit_match_word : forall key w prev rest,
    forallb is_ascii_alnum key = true ->
    forallb is_word w = true ->
    word_here rest = false ->
    (key = [] -> word_before prev = true) ->
    lit_match key prev (w ++ rest) = ci_equal key w.
Proof.
  induction key as [| k key IH]; intros w prev rest Hk Hw Hrest Hprev.
  - simpl. unfold at_boundary. rewrite (Hprev eq_refl).
    destruct w as [| t w]; simpl.
    + now rewrite Hrest.
    + simpl in Hw. apply andb_true_iff in Hw. destruct Hw as [Ht _]. now rewrite Ht.
  - simpl in Hk. apply andb_true_iff in Hk. destruct Hk as [Hk0 Hk].
    destruct w as [| t w]; simpl.
    + destruct rest as [| d rest]; [reflexivity |]. simpl in Hrest.
      now rewrite (ci_match_nonword _ _ Hk0 Hrest).
    + simpl in Hw. apply andb_true_iff in Hw. destruct Hw as [Ht Hw].
      rewrite IH; [reflexivity | assumption | assumption | assumption |].
      intros _. exact Ht.
Qed.

Lemma sub_loop_skip : forall p repl m prev rest,
    sub_loop p repl prev (m ++ rest) (length m)
    = sub_loop p repl (last_seen m prev) rest 0.
Proof.
  induction m as [| c m IH]; intros prev rest; simpl; [reflexivity |].
  apply IH.
Qed.

Lemma last_seen_word : forall w prev,
    forallb is_word w = true -> word_before prev = true ->
    word_before (last_seen w prev) = true.
Proof.
  induction w as [| c w IH]; intros prev Hw Hprev; simpl; [exact Hprev |].
  simpl in Hw. apply andb_true_iff in Hw. destruct Hw as [Hc Hw].
  apply IH; assumption.
Qed.

(** Inside a word there is no boundary, so nothing matches. *)
Lemma sub_loop_inside_word : forall key repl w prev rest,
    forallb is_word w = true -> word_before prev = true ->
    sub_loop (key_atoms key) repl prev (w ++ rest) 0
    = w ++ sub_loop (key_atoms key) repl (last_seen w prev) rest 0.
Proof.
  induction w as [| c w IH]; intros prev rest Hw Hprev; [reflexivity |].
  simpl in Hw. apply andb_true_iff in Hw. destruct Hw as [Hc Hw].
  simpl app. cbn [sub_loop key_atoms match_atoms].
  unfold at_boundary. cbn [word_here]. rewrite Hprev, Hc. cbn [xorb].
  cbn [last_seen fold_left]. f_equal.
  change (fold_left (fun _ c0 => Some c0) w (Some c)) with (last_seen w (Some c)).
  apply IH; assumption.
Qed.

Lemma match_key_nonword : forall k key prev c s,
    is_ascii_alnum k = true -> is_word c = false ->
    match_atoms (key_atoms (k :: key)) prev (c :: s) = None.
Proof.
  intros k key prev c s Hk Hc. unfold key_atoms. cbn [match_atoms map app].
  rewrite (ci_match_nonword _ _ Hk Hc). now destruct (at_boundary prev (c :: s)).
Qed.

Lemma match_key_end : forall k key prev,
    match_atoms (key_atoms (k :: key)) prev [] = None.
Proof.
  intros k key prev. unfold key_atoms. cbn [match_atoms map app].
  now destruct (at_boundary prev []).
Qed.

(** At the first character of a word token. *)
Lemma sub_loop_word : forall k key repl c w prev rest,
    forallb is_ascii_alnum (k :: key) = true ->
    forallb is_word (c :: w) = true ->
    word_here rest = false ->
    word_before prev = false ->
    sub_loop (key_atoms (k :: key)) repl prev ((c :: w) ++ rest) 0
    = (if ci_equal (k :: key) (c :: w) then repl else c :: w)
        ++ sub_loop (key_atoms (k :: key)) repl (last_seen w (Some c)) rest 0.
Proof.
  intros k key repl c w prev rest Hk Hw Hrest Hprev.
  assert (Hc : is_word c = true).
  { simpl in Hw. apply andb_true_iff in Hw. tauto. }
  assert (Hw' : forallb is_word w = true).
  { simpl in Hw. apply andb_true_iff in Hw. tauto. }
  assert (Hm : match_atoms (key_atoms (k :: key)) prev ((c :: w) ++ rest)
               = if ci_equal (k :: key) (c :: w)
                 then Some (length (c :: w)) else None).
  { unfold key_atoms. cbn [match_atoms].
    replace (at_boundary prev ((c :: w) ++ rest)) with true
      by (unfold at_boundary; simpl; now rewrite Hprev, Hc).
    rewrite match_lits.
    rewrite lit_match_word by (assumption || discriminate).
    destruct (ci_equal (k :: key) (c :: w)) eqn:E; [| reflexivity].
    now rewrite (ci_equal_length _ _ E). }
  change ((c :: w) ++ rest) with (c :: (w ++ rest)) in *.
  cbn [sub_loop]. rewrite Hm.
  destruct (ci_equal (k :: key) (c :: w)).
  - cbn [length]. now rewrite sub_loop_skip.
  - rewrite sub_loop_inside_word by assumption. reflexivity.
Qed.

Lemma replace_scan_word : forall key hindi w rest cur,
    forallb is_word w = true ->
    replace_scan key hindi (w ++ rest) cur = replace_scan key hindi rest (rev w ++ cur).
Proof.
  induction w as [| c w IH]; intros rest cur Hw; [reflexivity |].
  simpl in Hw. apply andb_true_iff in Hw. destruct Hw as [Hc Hw].
  simpl. rewrite Hc, (IH rest (c :: cur) Hw). now rewrite <- app_assoc.
Qed.

(** The substitution loop for an alphanumeric key is the replacement of
    word tokens. *)
Lemma sub_loop_replace : forall k key hindi n text prev,
    forallb is_ascii_alnum (k :: key) = true ->
    length text <= n ->
    word_before prev = false ->
    sub_loop (key_atoms (k :: key)) hindi prev text 0
    = replace_scan (k :: key) hindi text [].
Proof.
  intros k key hindi n. induction n as [| n IH]; intros text prev Hk Hlen Hprev.
  - destruct text; [| simpl in Hlen; lia].
    cbn [sub_loop]. now rewrite match_key_end.
  - destruct text as [| c s].
    { cbn [sub_loop]. now rewrite match_key_end. }
    assert (Hk0 : is_ascii_alnum k = true).
    { simpl in Hk. apply andb_true_iff in Hk. tauto. }
    simpl in Hlen. destruct (is_word c) eqn:Hc.
    + destruct (word_prefix_rest s) as [Hsplit [Hw Hrest]].
      rewrite <- Hsplit.
      change (c :: word_prefix s ++ word_rest s)
        with ((c :: word_prefix s) ++ word_rest s).
      assert (Hcw : forallb is_word (c :: word_prefix s) = true).
      { simpl. now rewrite Hc, Hw. }
      rewrite sub_loop_word by assumption.
      rewrite replace_scan_word by assumption.
      rewrite app_nil_r.
      assert (Hlen' : length (word_rest s) <= length s).
      { rewrite <- Hsplit at 2. rewrite length_app. lia. }
      destruct (word_rest s) as [| d s''] eqn:Erest.
      * cbn [sub_loop replace_scan]. rewrite match_key_end.
        unfold emit_word. rewrite rev_involutive. now rewrite app_nil_r.
      * simpl in Hrest. cbn [sub_loop replace_scan].
        rewrite match_key_nonword by assumption. rewrite Hrest.
        unfold emit_word at 1. rewrite rev_involutive.
        f_equal. f_equal. apply IH; [assumption | simpl in Hlen'; lia | exact Hrest].
    + cbn [sub_loop replace_scan].
      rewrite match_key_nonword by assumption. rewrite Hc.
      unfold emit_word. simpl. f_equal.
      apply IH; [assumption | lia | exact Hc].
Qed.

Lemma re_sub_plain : forall key hindi text,
    plain_entry (key, hindi) ->
    re_sub (u "\b" ++ key ++ u "\b") (JStr hindi) text
    = Ok (replace_words key hindi text).
Proof.
  intros key hindi text [Hne [Hk Hh]]. simpl in Hne, Hk, Hh.
  unfold re_sub, re_sub_str.
  rewrite (parse_key_pattern _ Hk), (expand_plain _ Hh).
  destruct key as [| k key]; [contradiction |].
  f_equal. apply sub_loop_replace with (n := length text); auto.
Qed.

Lemma preprocess_plain : forall pairs text,
    Forall plain_entry pairs ->
    preprocess_text (map str_item pairs) text = Ok (replace_all pairs text).
Proof.
  unfold preprocess_text.
  induction pairs as [| [key hindi] pairs IH]; intros text H; [reflexivity |].
  inversion H as [| kh l Hkh Hl]; subst.
  unfold str_item at 1. cbn [map preprocess_items fst snd].
  rewrite (re_sub_plain text Hkh). now apply IH.
Qed.

Lemma replace_words_token : forall key hindi w,
    forallb is_word w = true ->
    replace_words key hindi w = if ci_equal key w then hindi else w.
Proof.
  intros key hindi w Hw. unfold replace_words.
  rewrite <- (app_nil_r w) at 1. rewrite replace_scan_word by assumption.
  simpl. unfold emit_word. now rewrite app_nil_r, rev_involutive.
Qed.

Lemma replace_scan_split : forall key hindi a c b cur,
    is_word c = false ->
    replace_scan key hindi (a ++ c :: b) cur
    = replace_scan key hindi a cur ++ c :: replace_scan key hindi b [].
Proof.
  induction a as [| x a IH]; intros c b cur Hc; simpl.
  - now rewrite Hc.
  - destruct (is_word x).
    + now apply IH.
    + rewrite (IH c b [] Hc). now rewrite <- app_assoc.
Qed.

(** C4 (amended): for a lexicon whose keys are non-empty runs of ASCII
    letters and digits and whose values are strings without backslash,
    normalising applies the entries in insertion order, and each entry
    replaces exactly the word tokens (maximal runs of letters, digits and
    underscore) that equal its key ignoring case; a token that differs from
    the key is kept whole, and the text on either side of a character that
    is not a word character is rewritten independently.  With the lexicon naam -> (Hindi) naam:
    "mera naam hai" has its middle word replaced, "naamkaran" is unchanged,
    "NAAM" is replaced. *)
Theorem normalize_whole_words :
  (forall pairs text,
      Forall plain_entry pairs ->
      preprocess_text (map str_item pairs) text = Ok (replace_all pairs text))
  /\ (forall key hindi w,
         forallb is_word w = true ->
         replace_words key hindi w = if ci_equal key w then hindi else w)
  /\ (forall key hindi a c b,
         is_word c = false ->
         replace_words key hindi (a ++ c :: b)
         = replace_words key hindi a ++ c :: replace_words key hindi b)
  /\ preprocess_text naam_lexicon (u "mera naam hai")
     = Ok (u "mera " ++ naam_hindi ++ u " hai")
  /\ preprocess_text naam_lexicon (u "naamkaran") = Ok (u "naamkaran")
  /\ preprocess_text naam_lexicon (u "NAAM") = Ok naam_hindi.
Proof.
  split; [exact preprocess_plain |].
  split; [exact replace_words_token |].
  split; [intros; now apply replace_scan_split |].
  repeat split.
Qed.

(** C10 (amended): keys go into the pattern unescaped.  For every lexicon
    whose keys are non-empty runs of ASCII letters and digits and whose
    values are strings without backslash, each key compiles to its own
    characters between two word boundaries, and normalising any text
    returns the literal whole-word replacements, entry after entry.  The
    key "(" makes normalisation raise for every text and value; the key
    "a.c" matches "abc", which does not contain it. *)
Theorem unescaped_keys :
  (forall pairs,
      Forall plain_entry pairs ->
      (forall key hindi,
          In (key, hindi) pairs ->
          parse_pattern (u "\b" ++ key ++ u "\b")
          = Modelled (ABoundary :: map ALit key ++ [ABoundary]))
      /\ (forall text,
             preprocess_text (map str_item pairs) text = Ok (replace_all pairs text)))
  /\ (forall hindi text, preprocess_text [(u "(", hindi)] text = Raise ReError)
  /\ preprocess_text [(u "a.c", JStr (u "x"))] (u "abc") = Ok (u "x").
Proof.
  split; [| split].
  - intros pairs H. split.
    + intros key hindi Hin. apply parse_key_pattern.
      rewrite Forall_forall in H. apply (H _ Hin).
    + intros text. now apply preprocess_plain.
  - intros hindi text. destruct hindi; reflexivity.
  - reflexivity.
Qed.

End NormaliserFacts.

(** * Further properties of the code *)

(** ** Loading the lexicon *)

Section LoaderMore.

Context {RT : PyRuntime} {CO : Collaborators} {CF : Confidence}.

Ltac load_steps :=
  unfold load_line, bind, lift, raise, set_item, json_get, json_lower.

Lemma load_line_ok_iff : forall line w,
    (exists w', load_line line w = (Ok tt, w')) <-> well_shaped line = true.
Proof.
  intros line w. unfold well_shaped.
  destruct line as [data |]; [| load_steps; split; [intros [w' H] |]; discriminate].
  destruct data as [| b | n | s | l | fields];
    try (load_steps; split; [intros [w' H] |]; discriminate).
  load_steps.
  destruct (lookup (u "translation") fields) as [translation |].
  - destruct translation as [| b | n | s | l | translation];
      try (split; [intros [w' H] |]; discriminate).
    destruct (lookup (u "hi_ng") translation) as [hinglish |].
    + destruct hinglish; split; try (intros [w' H]); try discriminate;
        try reflexivity; intros _; eexists; reflexivity.
    + split; [reflexivity | intros _; eexists; reflexivity].
  - simpl. split; [reflexivity | intros _; eexists; reflexivity].
Qed.

Lemma for_each_load_ok : forall lines w,
    (exists w', for_each lines load_line w = (Ok tt, w'))
    <-> forallb well_shaped lines = true.
Proof.
  induction lines as [| line lines IH]; intros w; simpl.
  - split; [reflexivity | intros _; eexists; reflexivity].
  - unfold bind. rewrite andb_true_iff, <- (load_line_ok_iff line w).
    destruct (load_line line w) as [[[] | e] w1] eqn:E.
    + rewrite <- (IH w1). split.
      * intros H. split; [now exists w1 | exact H].
      * intros [_ H]. exact H.
    + split.
      * intros [w' H]. discriminate.
      * intros [[w' H] _]. discriminate.
Qed.

(** X1: the load runs to its end exactly when the file opens and every
    line is well shaped; a missing field is no obstacle, and the "en" field
    may hold any value. *)
Theorem load_succeeds_iff :
  forall file_path w,
    (exists w', load_hinglish_mapping file_path w = (Ok tt, w'))
    <-> (exists lines, open_dataset file_path = Some lines
                       /\ forallb well_shaped lines = true).
Proof.
  intros file_path w. unfold load_hinglish_mapping.
  destruct (open_dataset file_path) as [lines |].
  - rewrite for_each_load_ok. split.
    + intros H. now exists lines.
    + intros [lines' [E H]]. now injection E as ->.
  - split.
    + intros [w' H]. discriminate.
    + intros [lines [E _]]. discriminate.
Qed.

Lemma dict_set_keys : forall d k v,
    (In k (map fst d) -> map fst (dict_set d k v) = map fst d)
    /\ (~ In k (map fst d) -> map fst (dict_set d k v) = map fst d ++ [k]).
Proof.
  induction d as [| [k' v'] d IH]; intros k v; simpl.
  - split; [intros [] | reflexivity].
  - destruct (pystr_eqb k' k) eqn:E; simpl.
    + apply pystr_eqb_eq in E. subst k'. split; [reflexivity |].
      intros H. exfalso. apply H. now left.
    + apply pystr_eqb_neq in E. destruct (IH k v) as [IH1 IH2]. split.
      * intros [H | H]; [contradiction |]. now rewrite IH1.
      * intros H. rewrite IH2; [reflexivity |]. intros H'. apply H. now right.
Qed.

Lemma dict_set_keys_grow : forall d k v,
    NoDup (map fst d) ->
    exists added, map fst (dict_set d k v) = map fst d ++ added
                  /\ NoDup (map fst d ++ added).
Proof.
  intros d k v Hd. destruct (dict_set_keys d k v) as [H1 H2].
  destruct (in_dec (list_eq_dec N.eq_dec) k (map fst d)) as [Hin | Hout].
  - exists []. rewrite app_nil_r. split; [now apply H1 | exact Hd].
  - exists [k]. split; [now apply H2 |].
    apply NoDup_app; [exact Hd | repeat constructor; intros [] |].
    intros x Hx [Hk | []]. subst x. contradiction.
Qed.

(** X2: loading keeps the keys of the dictionary distinct and in first
    insertion order: the keys present before stay where they are and new
    keys are appended, whether or not the load runs to its end. *)
Theorem lexicon_keys_unique :
  forall file_path w,
    NoDup (map fst (HINGLISH_TO_HINDI w)) ->
    let w' := snd (load_hinglish_mapping file_path w) in
    exists added,
      map fst (HINGLISH_TO_HINDI w') = map fst (HINGLISH_TO_HINDI w) ++ added
      /\ NoDup (map fst (HINGLISH_TO_HINDI w')).
Proof.
  intros file_path w Hw. unfold load_hinglish_mapping.
  destruct (open_dataset file_path) as [lines |].
  2: { exists []. simpl. now rewrite app_nil_r. }
  revert w Hw. induction lines as [| line lines IH]; intros w Hw; simpl.
  - exists []. now rewrite app_nil_r.
  - unfold bind.
    destruct (load_line_effect line w) as [[e He] | [h [v He]]]; rewrite He.
    + exists []. simpl. now rewrite app_nil_r.
    + destruct (dict_set_keys_grow (HINGLISH_TO_HINDI w) (str_lower h) v Hw)
        as [added [Hk Hnd]].
      set (w1 := {| HINGLISH_TO_HINDI := dict_set (HINGLISH_TO_HINDI w) (str_lower h) v;
                    cwd := cwd w; trace := trace w |}).
      assert (Hw1 : NoDup (map fst (HINGLISH_TO_HINDI w1))).
      { simpl. now rewrite Hk. }
      destruct (IH w1 Hw1) as [added' [Hk' Hnd']].
      exists (added ++ added'). split; [| exact Hnd'].
      rewrite Hk'. simpl. rewrite Hk. now rewrite app_assoc.
Qed.

Lemma dict_set_store : forall d k v, dict_set d k v = store d k v.
Proof.
  induction d as [| [k' v'] d IH]; intros k v; simpl; [reflexivity |].
  now rewrite IH.
Qed.

(** X3: the last record of the dataset wins: once the lines before it
    have loaded, its value is what the dictionary holds under its
    lower-cased key, and every other key keeps its value. *)
Theorem last_record_wins :
  forall file_path lines hinglish hindi w w1,
    open_dataset file_path = Some (lines ++ [Some (dataset_record hinglish hindi)]) ->
    for_each lines load_line w = (Ok tt, w1) ->
    exists w2,
      load_hinglish_mapping file_path w = (Ok tt, w2)
      /\ lookup (str_lower hinglish) (HINGLISH_TO_HINDI w2) = Some hindi
      /\ (forall k, k <> str_lower hinglish ->
                    lookup k (HINGLISH_TO_HINDI w2) = lookup k (HINGLISH_TO_HINDI w1)).
Proof.
  intros file_path lines hinglish hindi w w1 Hopen Hpre.
  unfold load_hinglish_mapping. rewrite Hopen, for_each_app, Hpre.
  eexists. split; [reflexivity |]. cbn [HINGLISH_TO_HINDI snd].
  rewrite dict_set_store. split.
  - apply lookup_store_same.
  - intros k Hk. now apply lookup_store_other.
Qed.

End LoaderMore.

(** ** One file through the pipeline *)

Section PipelineMore.

Context {RT : PyRuntime} {CO : Collaborators} {CF : Confidence}.

Lemma process_file_valid : forall file_path b w,
    is_valid_file file_path = true ->
    is_supported_format file_path = true ->
    process_file file_path b w =
    match translate_audio_to_text file_path w with
    | (Ok (Some t), w1) => create_transcript_file file_path t None w1
    | (Ok None, w1) => (Ok tt, w1)
    | (Raise e, w1) => (Raise e, w1)
    end.
Proof.
  intros file_path b w Hv Hs. unfold process_file. rewrite Hv, Hs. simpl.
  unfold bind. destruct (translate_audio_to_text file_path w) as [[[t |] | e] w1];
    reflexivity.
Qed.

(** X4: when recognition fails the file is skipped: one record is
    logged, a warning for an unintelligible recording and an error for
    anything else, and neither the normaliser's result, the detector, the
    translator nor the writer is used. *)
Theorem recognition_failure_skips :
  forall file_path translate_to_english w e,
    is_valid_file file_path = true ->
    is_supported_format file_path = true ->
    recognize_google (trace w) file_path = Raise e ->
    process_file file_path translate_to_english w =
    (Ok tt, {| HINGLISH_TO_HINDI := HINGLISH_TO_HINDI w;
               cwd := cwd w;
               trace := Log (level_of e) :: Recognize file_path :: trace w |}).
Proof.
  intros file_path b w e Hv Hs Hr. rewrite process_file_valid by assumption.
  unfold translate_audio_to_text, detect_and_transcribe. run_py. rewrite Hr.
  destruct e; reflexivity.
Qed.

(** X5: when the recording is recognised but normalisation raises (a
    key that is no valid pattern, a value that is no str) or language
    detection raises, the file is skipped in the same way: one record is
    logged and neither the translator nor the writer is used. *)
Theorem normalisation_failure_skips :
  forall file_path translate_to_english w raw e,
    is_valid_file file_path = true ->
    is_supported_format file_path = true ->
    recognize_google (trace w) file_path = Ok raw ->
    (preprocess_text (HINGLISH_TO_HINDI w) raw = Raise e ->
     process_file file_path translate_to_english w =
     (Ok tt, {| HINGLISH_TO_HINDI := HINGLISH_TO_HINDI w;
                cwd := cwd w;
                trace := Log (level_of e) :: Recognize file_path :: trace w |}))
    /\ (forall t,
           preprocess_text (HINGLISH_TO_HINDI w) raw = Ok t ->
           detect (Recognize file_path :: trace w) t = Raise e ->
           process_file file_path translate_to_english w =
           (Ok tt, {| HINGLISH_TO_HINDI := HINGLISH_TO_HINDI w;
                      cwd := cwd w;
                      trace := Log (level_of e) :: Detect t
                                 :: Recognize file_path :: trace w |})).
Proof.
  intros file_path b w raw e Hv Hs Hr. split.
  - intros Hp. rewrite process_file_valid by assumption.
    unfold translate_audio_to_text, detect_and_transcribe. run_py.
    rewrite Hr, Hp. destruct e; reflexivity.
  - intros t Hp Hd. rewrite process_file_valid by assumption.
    unfold translate_audio_to_text, detect_and_transcribe. run_py.
    rewrite Hr, Hp. run_py. rewrite Hd. destruct e; reflexivity.
Qed.

(** X6: a transcript detected as English is written as normalised, and
    the translator is neither constructed nor called; the artifact is
    absent before the run, the device takes the writes, and the base name
    and the text can be encoded. *)
Theorem english_not_translated :
  forall file_path translate_to_english w raw t,
    is_valid_file file_path = true ->
    is_supported_format file_path = true ->
    recognize_google (trace w) file_path = Ok raw ->
    preprocess_text (HINGLISH_TO_HINDI w) raw = Ok t ->
    detect (Recognize file_path :: trace w) t = Ok (u "en") ->
    let h := Log INFO :: Detect t :: Recognize file_path :: trace w in
    lookup (output_path file_path) (cwd w) = None ->
    device_ok (output_path file_path) ->
    utf8_encodable (fst (splitext (basename file_path))) = true ->
    utf8_encodable t = true ->
    process_file file_path translate_to_english w =
    (Ok tt, {| HINGLISH_TO_HINDI := HINGLISH_TO_HINDI w;
               cwd := store (cwd w) (output_path file_path)
                            (plain_content file_path t);
               trace := h |}).
Proof.
  intros file_path b w raw t Hv Hs Hr Hp Hd h Hnew Hdev Hbase Ht.
  rewrite process_file_valid by assumption.
  unfold translate_audio_to_text, bind.
  rewrite (detect_and_transcribe_ok _ _ Hr Hp Hd). cbv beta iota.
  rewrite pystr_eqb_refl. cbn [negb]. unfold ret. fold h.
  rewrite create_transcript_file_new; try assumption; [| intros s []].
  unfold plain_content, transcript_content. cbn [HINGLISH_TO_HINDI cwd trace].
  now rewrite <- !app_assoc.
Qed.

(** X7: for a transcript in another language, once the translator has
    been constructed it is called once, after detection, with the
    normalised text and the detected language; its non-empty answer is
    written, and its failure adds one error record before the normalised
    text is written (the artifact absent, the device taking the writes,
    the base name and the text written encodable). *)
Theorem translation_called_once :
  forall file_path translate_to_english w raw t lang,
    is_valid_file file_path = true ->
    is_supported_format file_path = true ->
    recognize_google (trace w) file_path = Ok raw ->
    preprocess_text (HINGLISH_TO_HINDI w) raw = Ok t ->
    detect (Recognize file_path :: trace w) t = Ok lang ->
    lang <> u "en" ->
    let h := Log INFO :: Detect t :: Recognize file_path :: trace w in
    new_translator h = Ok tt ->
    lookup (output_path file_path) (cwd w) = None ->
    device_ok (output_path file_path) ->
    utf8_encodable (fst (splitext (basename file_path))) = true ->
    (forall c s,
        translate h t lang = Ok (c :: s) ->
        utf8_encodable (c :: s) = true ->
        process_file file_path translate_to_english w =
        (Ok tt, {| HINGLISH_TO_HINDI := HINGLISH_TO_HINDI w;
                   cwd := store (cwd w) (output_path file_path)
                                (plain_content file_path (c :: s));
                   trace := Translate t lang :: h |}))
    /\ (forall e,
           translate h t lang = Raise e ->
           utf8_encodable t = true ->
           process_file file_path translate_to_english w =
           (Ok tt, {| HINGLISH_TO_HINDI := HINGLISH_TO_HINDI w;
                      cwd := store (cwd w) (output_path file_path)
                                   (plain_content file_path t);
                      trace := Log ERROR :: Translate t lang :: h |})).
Proof.
  intros file_path b w raw t lang Hv Hs Hr Hp Hd Hlang h Hmake Hnew Hdev Hbase.
  apply pystr_eqb_neq in Hlang.
  split.
  - intros c s Ht Henc. rewrite process_file_valid by assumption.
    unfold translate_audio_to_text, bind.
    rewrite (detect_and_transcribe_ok _ _ Hr Hp Hd), Hlang. cbn [negb].
    run_py. fold h. rewrite Hmake, Ht. cbn [truthy]. cbv beta iota.
    rewrite create_transcript_file_new; try assumption; [| intros x []].
    unfold plain_content, transcript_content. cbn [HINGLISH_TO_HINDI cwd trace].
    now rewrite <- !app_assoc.
  - intros e Ht Henc. rewrite process_file_valid by assumption.
    unfold translate_audio_to_text, bind.
    rewrite (detect_and_transcribe_ok _ _ Hr Hp Hd), Hlang. cbn [negb].
    run_py. fold h. rewrite Hmake, Ht. cbn [truthy]. cbv beta iota.
    rewrite create_transcript_file_new; try assumption; [| intros x []].
    unfold plain_content, transcript_content. cbn [HINGLISH_TO_HINDI cwd trace].
    now rewrite <- !app_assoc.
Qed.

(** X8: when the transcript file cannot be opened for writing, the
    writer logs one error, creates nothing and returns normally. *)
Theorem write_failure_logged :
  forall file_path transcript confidence_scores w,
    lookup (output_path file_path) (cwd w) = None ->
    open_w (trace w) (output_path file_path) = false ->
    create_transcript_file file_path transcript confidence_scores w =
    (Ok tt, {| HINGLISH_TO_HINDI := HINGLISH_TO_HINDI w;
               cwd := cwd w;
               trace := Log ERROR :: trace w |}).
Proof.
  intros file_path transcript scores w Hnew Hopen.
  unfold output_path in *. unfold create_transcript_file. run_py.
  rewrite Hnew, Hopen. reflexivity.
Qed.

(** X20: a failure after the open is caught as well, and what was
    written before it stays: when the header cannot be encoded the writer
    leaves an empty file, when the header is written and the transcript
    cannot be encoded it leaves the header alone; in both cases one error
    is logged and the writer returns normally. *)
Theorem partial_write_logged :
  forall file_path transcript confidence_scores w,
    lookup (output_path file_path) (cwd w) = None ->
    open_w (trace w) (output_path file_path) = true ->
    let base_filename := fst (splitext (basename file_path)) in
    (utf8_encodable base_filename = false ->
     create_transcript_file file_path transcript confidence_scores w =
     (Ok tt, {| HINGLISH_TO_HINDI := HINGLISH_TO_HINDI w;
                cwd := store (cwd w) (output_path file_path) [];
                trace := Log ERROR :: trace w |}))
    /\ (utf8_encodable base_filename = true ->
        write_ok (trace w) (output_path file_path) []
                 (base_filename ++ u ":" ++ [newline]) = true ->
        utf8_encodable transcript = false ->
        create_transcript_file file_path transcript confidence_scores w =
        (Ok tt, {| HINGLISH_TO_HINDI := HINGLISH_TO_HINDI w;
                   cwd := store (cwd w) (output_path file_path)
                                (base_filename ++ u ":" ++ [newline]);
                   trace := Log ERROR :: trace w |})).
Proof.
  intros file_path transcript scores w Hnew Hopen base_filename.
  subst base_filename. unfold output_path in *.
  split.
  - intros Hbase. unfold create_transcript_file.
    unfold bind at 1. unfold path_exists. rewrite Hnew.
    unfold try_except, get_trace. unfold bind at 1. rewrite Hopen.
    unfold bind at 1. unfold write_file. unfold write_block.
    unfold bind at 1. unfold f_write at 1. cbn [cwd trace HINGLISH_TO_HINDI].
    rewrite (@lookup_store_same pystr (cwd w) _ []).
    rewrite !utf8_encodable_app, Hbase. reflexivity.
  - intros Hbase Hdev Ht.
    assert (Henc : utf8_encodable
                     (fst (splitext (basename file_path)) ++ u ":" ++ [newline])
                   = true).
    { rewrite !utf8_encodable_app, Hbase. reflexivity. }
    unfold create_transcript_file.
    unfold bind at 1. unfold path_exists. rewrite Hnew.
    unfold try_except, get_trace. unfold bind at 1. rewrite Hopen.
    unfold bind at 1. unfold write_file. unfold write_block.
    unfold bind at 1. unfold f_write at 1. cbn [cwd trace HINGLISH_TO_HINDI].
    rewrite (@lookup_store_same pystr (cwd w) _ []).
    rewrite Henc, Hdev. cbn [negb]. cbv iota.
    unfold bind at 1. unfold f_write at 1. rewrite Ht. cbn [negb]. cbv iota.
    unfold logging, emit. cbn [cwd trace HINGLISH_TO_HINDI].
    now rewrite store_store.
Qed.

Lemma process_file_returns_frame : forall file_path b w,
    (forall h, new_translator h = Ok tt) ->
    exists w',
      process_file file_path b w = (Ok tt, w')
      /\ exists evs,
          trace w' = evs ++ trace w
          /\ (In (Recognize file_path) evs
              <-> is_valid_file file_path && is_supported_format file_path = true).
Proof.
  intros file_path b w Hmake.
  destruct (process_file_returns file_path b w Hmake) as [w' Hrun].
  destruct (process_file_frame file_path b w) as [_ [_ [_ Ht]]].
  rewrite Hrun in Ht. cbn [snd] in Ht. now exists w'.
Qed.

(** X9: a run of [process_file] only adds to the history and never
    changes the dictionary, and the recogniser is called in that run
    exactly when the path is an existing file of a supported format. *)
Theorem recogniser_called_iff_valid :
  forall file_path translate_to_english w,
    let w' := snd (process_file file_path translate_to_english w) in
    HINGLISH_TO_HINDI w' = HINGLISH_TO_HINDI w
    /\ exists evs,
        trace w' = evs ++ trace w
        /\ (In (Recognize file_path) evs
            <-> (is_valid_file file_path = true
                 /\ is_supported_format file_path = true)).
Proof.
  intros file_path b w.
  destruct (process_file_frame file_path b w) as [Hlex [_ [_ [evs [Ht Hiff]]]]].
  split; [exact Hlex |].
  exists evs. split; [exact Ht |]. now rewrite Hiff, andb_true_iff.
Qed.

(** X21: the translator is constructed outside the handler of
    [translate_text]: when the construction raises for a transcript in a
    language other than English, the exception leaves [process_file] with
    nothing written and no record logged for it, the files after it in a
    batch are not processed, and it leaves [main]. *)
Theorem translator_construction_fatal :
  forall file_path translate_to_english w raw t lang e,
    is_valid_file file_path = true ->
    is_supported_format file_path = true ->
    recognize_google (trace w) file_path = Ok raw ->
    preprocess_text (HINGLISH_TO_HINDI w) raw = Ok t ->
    detect (Recognize file_path :: trace w) t = Ok lang ->
    lang <> u "en" ->
    let h := Log INFO :: Detect t :: Recognize file_path :: trace w in
    new_translator h = Raise e ->
    let w' := {| HINGLISH_TO_HINDI := HINGLISH_TO_HINDI w; cwd := cwd w; trace := h |} in
    process_file file_path translate_to_english w = (Raise e, w')
    /\ (forall rest,
           for_each (file_path :: rest)
                    (fun p => process_file p translate_to_english) w
           = (Raise e, w'))
    /\ (forall a w0,
           load_hinglish_mapping dataset_path w0 = (Ok tt, w) ->
           given (input_file_path a) = Some file_path ->
           translate_flag a = translate_to_english ->
           main a w0 = (Raise e, w')).
Proof.
  intros file_path b w raw t lang e Hv Hs Hr Hp Hd Hlang h Hmake w'.
  apply pystr_eqb_neq in Hlang.
  assert (Hrun : process_file file_path b w = (Raise e, w')).
  { rewrite process_file_valid by assumption.
    unfold translate_audio_to_text, bind.
    rewrite (detect_and_transcribe_ok _ _ Hr Hp Hd), Hlang. cbn [negb].
    run_py. fold h. now rewrite Hmake. }
  split; [exact Hrun |]. split.
  - intros rest. simpl. unfold bind. now rewrite Hrun.
  - intros a w0 Hload Hfile <-. unfold main, bind. rewrite Hload, Hfile.
    now rewrite Hrun.
Qed.

(** ** A directory through the pipeline *)

Lemma for_each_process_file : forall l b w,
    (forall h, new_translator h = Ok tt) ->
    exists w',
      for_each l (fun file_path => process_file file_path b) w = (Ok tt, w')
      /\ exists evs,
          trace w' = evs ++ trace w
          /\ (forall file_path,
                 In file_path l ->
                 is_valid_file file_path = true ->
                 is_supported_format file_path = true ->
                 In (Recognize file_path) evs).
Proof.
  induction l as [| p l IH]; intros b w Hmake; simpl.
  - exists w. split; [reflexivity |]. exists []. split; [reflexivity |].
    intros file_path [].
  - unfold bind.
    destruct (process_file_returns_frame p b w Hmake) as [w1 [Hrun [evs1 [Ht1 Hiff]]]].
    rewrite Hrun. destruct (IH b w1 Hmake) as [w2 [Hrest [evs2 [Ht2 Hall]]]].
    exists w2. split; [exact Hrest |]. exists (evs2 ++ evs1). split.
    + rewrite Ht2, Ht1. now rewrite app_assoc.
    + intros file_path [-> | Hin] Hv Hs; apply in_or_app.
      * right. apply Hiff. now rewrite Hv, Hs.
      * left. now apply Hall.
Qed.

Lemma process_directory_recursive_returns : forall directory_path b w,
    (forall h, new_translator h = Ok tt) ->
    exists w', process_directory directory_path true b w = (Ok tt, w').
Proof.
  intros directory_path b w Hmake.
  destruct (listdir directory_path) as [t |] eqn:Hdir.
  - rewrite (process_directory_recursive _ b w Hdir).
    destruct (for_each_process_file
                (filter is_supported_format (walked_files (walk directory_path t))) b w
                Hmake)
      as [w' [Hrun _]].
    now exists w'.
  - unfold process_directory, isdir. rewrite Hdir. eexists. reflexivity.
Qed.

(** X10: with recursion requested the walk returns normally whenever the
    translator can be constructed, whatever the path is and whatever the
    recogniser, the normaliser, the detector, the translate call and the
    writer do on the single files; a path that is no directory costs one
    error record and nothing else. *)
Theorem recursive_walk_returns :
  forall directory_path translate_to_english w,
    ((forall h, new_translator h = Ok tt) ->
     exists w',
       process_directory directory_path true translate_to_english w = (Ok tt, w'))
    /\ (isdir directory_path = false ->
        forall recursive,
          process_directory directory_path recursive translate_to_english w =
          (Ok tt, {| HINGLISH_TO_HINDI := HINGLISH_TO_HINDI w;
                     cwd := cwd w;
                     trace := Log ERROR :: trace w |})).
Proof.
  intros directory_path b w. split.
  - apply process_directory_recursive_returns.
  - intros Hdir recursive. unfold process_directory. rewrite Hdir. reflexivity.
Qed.

(** X11: with recursion requested the walk is one pass over the files of
    a supported format anywhere below the directory, in the order of the
    walk; when the translator can be constructed every existing one of
    them is sent to the recogniser, also when files before it failed;
    files of other formats are passed over. *)
Theorem recursive_walk_reaches_all :
  forall directory_path t translate_to_english w,
    listdir directory_path = Some t ->
    process_directory directory_path true translate_to_english w
    = for_each (filter is_supported_format (walked_files (walk directory_path t)))
               (fun file_path => process_file file_path translate_to_english) w
    /\ ((forall h, new_translator h = Ok tt) ->
        exists evs,
          trace (snd (process_directory directory_path true translate_to_english w))
          = evs ++ trace w
          /\ (forall file_path,
                 In file_path (walked_files (walk directory_path t)) ->
                 is_valid_file file_path = true ->
                 is_supported_format file_path = true ->
                 In (Recognize file_path) evs)).
Proof.
  intros directory_path t b w Hdir.
  rewrite (process_directory_recursive _ b w Hdir). split; [reflexivity |].
  intros Hmake.
  destruct (for_each_process_file
              (filter is_supported_format (walked_files (walk directory_path t))) b w
              Hmake)
    as [w' [Hrun [evs [Ht Hall]]]].
  rewrite Hrun. cbn [snd]. exists evs. split; [exact Ht |].
  intros file_path Hin Hv Hs. apply Hall; try assumption.
  apply filter_In. now split.
Qed.

(** ** The whole program *)

(** X12: once the lexicon has loaded, the walk of an existing directory
    without [-r] makes [main] fail with TypeError; in every other case,
    when the translator can be constructed, [main] returns normally,
    whatever happened to the single files, and its last log record is the
    closing INFO. *)
Theorem main_outcome :
  forall a w w1,
    load_hinglish_mapping dataset_path w = (Ok tt, w1) ->
    (flat_walk a = true -> main a w = (Raise TypeError, w1))
    /\ (flat_walk a = false ->
        (forall h, new_translator h = Ok tt) ->
        exists w2 evs,
          main a w = (Ok tt, w2) /\ trace w2 = Log INFO :: evs ++ trace w1).
Proof.
  intros a w w1 Hload. unfold main, flat_walk, bind. rewrite Hload.
  destruct (given (input_file_path a)) as [file_path |].
  - split; [discriminate |]. intros _ Hmake.
    destruct (process_file_returns_frame file_path (translate_flag a) w1 Hmake)
      as [w2 [Hrun [evs [Ht _]]]].
    rewrite Hrun. do 2 eexists. split; [reflexivity |].
    cbn [trace]. now rewrite Ht.
  - destruct (given (input_directory_path a)) as [directory_path |].
    + destruct (recursive_flag a); cbn [negb]; rewrite ?andb_true_r, ?andb_false_r.
      * split; [discriminate |]. intros _ Hmake.
        destruct (listdir directory_path) as [t |] eqn:Hdir.
        -- rewrite (process_directory_recursive _ (translate_flag a) w1 Hdir).
           destruct (for_each_process_file
                       (filter is_supported_format
                               (walked_files (walk directory_path t)))
                       (translate_flag a) w1 Hmake) as [w2 [Hrun [evs [Ht _]]]].
           rewrite Hrun. do 2 eexists. split; [reflexivity |].
           cbn [trace]. now rewrite Ht.
        -- unfold process_directory, isdir. rewrite Hdir. cbn [negb].
           eexists. exists [Log ERROR]. split; reflexivity.
      * unfold process_directory. destruct (isdir directory_path); cbn [negb].
        -- split; [reflexivity | discriminate].
        -- split; [discriminate |]. intros _ _.
           eexists. exists [Log ERROR]. split; reflexivity.
    + split; [discriminate |]. intros _ _.
      eexists. exists []. split; reflexivity.
Qed.

End PipelineMore.

(** ** Names of files *)

Section NamesMore.

Context {RT : PyRuntime} {CO : Collaborators} {CF : Confidence}.

(** X13: for a name made of a stem without separator, a dot and an
    extension without dot or separator, in any directory, the format
    check holds exactly when the lower-cased extension is supported and
    the stem has a character other than a dot: names such as ".wav" and
    "dir/..mp3" are turned away. *)
Theorem supported_format_of_name :
  forall pre stem e,
    dir_prefix pre -> ~ In sep stem -> ~ In sep e -> ~ In extsep e ->
    is_supported_format (pre ++ stem ++ extsep :: e)
    = existsb (fun c => negb (N.eqb c extsep)) stem
      && existsb (pystr_eqb (str_lower (extsep :: e))) SUPPORTED_FORMATS.
Proof.
  intros pre stem e Hpre Hstem He Hdot. unfold is_supported_format.
  rewrite splitext_name by assumption.
  destruct (existsb (fun c => negb (N.eqb c extsep)) stem); reflexivity.
Qed.

(** X14: the transcript of [root/stem.ext] is named
    [stem-transcript.txt] whatever the directory and the extension, so
    once that file exists a recording with the same stem in any other
    directory or format is processed without its transcript being
    written. *)
Theorem transcript_name_of_stem :
  forall root stem e,
    ~ In sep stem -> existsb (fun c => negb (N.eqb c extsep)) stem = true ->
    ~ In sep e -> ~ In extsep e ->
    output_path (join root (stem ++ extsep :: e)) = stem ++ u "-transcript.txt"
    /\ (forall translate_to_english w c,
           lookup (stem ++ u "-transcript.txt") (cwd w) = Some c ->
           cwd (snd (process_file (join root (stem ++ extsep :: e))
                                  translate_to_english w)) = cwd w).
Proof.
  intros root stem e Hstem Hdots He Hdot.
  assert (Hname : output_path (join root (stem ++ extsep :: e))
                  = stem ++ u "-transcript.txt").
  { unfold output_path. rewrite basename_join.
    - change (stem ++ extsep :: e) with ([] ++ stem ++ extsep :: e).
      rewrite splitext_name by (assumption || now left). now rewrite Hdots.
    - intros H. apply in_app_or in H. destruct H as [H | [H | H]];
        [contradiction | discriminate | contradiction]. }
  split; [exact Hname |].
  intros b w c Hc.
  destruct (process_file_frame (join root (stem ++ extsep :: e)) b w)
    as [_ [_ [Hsame _]]].
  apply Hsame with c. now rewrite Hname.
Qed.

(** ** Confidence lines *)

(** X15: the tokens that the writer pairs with the scores are non-empty
    and free of whitespace, and put together they are the transcript
    without its whitespace; so there are never more confidence lines than
    such tokens, and none for a transcript of whitespace only. *)
Theorem confidence_tokens :
  forall transcript,
    concat (str_split transcript) = filter (fun c => negb (isspace c)) transcript
    /\ Forall (fun token => token <> []
                            /\ forallb (fun c => negb (isspace c)) token = true)
              (str_split transcript)
    /\ (forall base_filename scores,
           forallb isspace transcript = true ->
           transcript_content base_filename transcript (Some scores)
           = base_filename ++ u ":" ++ [newline] ++ transcript).
Proof.
  intros transcript.
  destruct (split_ws_tokens transcript [] eq_refl) as [Hcat Htok].
  split; [exact Hcat |]. split; [exact Htok |].
  intros base_filename scores Hws.
  assert (Hnone : str_split transcript = []).
  { unfold str_split in *. simpl in Hcat.
    assert (Hf : filter (fun c => negb (isspace c)) transcript = []).
    { clear Hcat Htok. induction transcript as [| c s IH]; [reflexivity |].
      simpl in Hws. apply andb_true_iff in Hws. destruct Hws as [Hc Hs].
      simpl. rewrite Hc. simpl. now apply IH. }
    rewrite Hf in Hcat.
    destruct (split_ws transcript []) as [| token l]; [reflexivity |].
    inversion Htok as [| x l' [Hne _] _]; subst.
    simpl in Hcat. apply app_eq_nil in Hcat. destruct Hcat as [Hcat _].
    contradiction. }
  unfold transcript_content. destruct scores as [| sc scores].
  - now rewrite <- !app_assoc.
  - rewrite Hnone. simpl. now rewrite <- !app_assoc.
Qed.

End NamesMore.

(** ** Normalising with a loaded lexicon *)

Section NormaliserMore.

Context {RT : PyRuntime} {CO : Collaborators} {CF : Confidence}.

Lemma ascii_lower_alnum_self : forall c,
    is_ascii_alnum c = true ->
    is_ascii_alnum (ascii_lower c) = true /\ ci_match (ascii_lower c) c = true
    /\ is_word c = true.
Proof.
  intros c Hc. pose proof (alnum_range _ Hc) as Hr.
  assert (Hl : is_ascii_alnum (ascii_lower c) = true).
  { apply range_alnum. unfold ascii_lower, is_ascii_upper.
    destruct (N.leb_spec 65 c), (N.leb_spec c 90); simpl; lia. }
  split; [exact Hl |]. split.
  - unfold ci_match. rewrite (alnum_is_ascii _ Hl), (alnum_is_ascii _ Hc). simpl.
    apply N.eqb_eq. unfold ascii_lower at 1.
    now rewrite ascii_lower_not_upper.
  - unfold is_word, isalnum. now rewrite (alnum_is_ascii _ Hc), Hc.
Qed.

Lemma lower_key_matches : forall h,
    forallb is_ascii_alnum h = true ->
    str_lower h = map ascii_lower h
    /\ forallb is_ascii_alnum (map ascii_lower h) = true
    /\ ci_equal (map ascii_lower h) h = true
    /\ forallb is_word h = true.
Proof.
  intros h Hh.
  assert (Hascii : forallb is_ascii h = true).
  { apply forallb_forall. intros c Hc. apply alnum_is_ascii.
    now apply (proj1 (forallb_forall _ _) Hh). }
  split; [unfold str_lower; now rewrite Hascii |].
  clear Hascii. induction h as [| c h IH]; [repeat split |].
  simpl in Hh. apply andb_true_iff in Hh. destruct Hh as [Hc Hh].
  destruct (ascii_lower_alnum_self _ Hc) as [H1 [H2 H3]].
  destruct (IH Hh) as [IH1 [IH2 IH3]].
  simpl. rewrite H1, H2, H3, IH1, IH2, IH3. repeat split.
Qed.

(** X17: a record of the dataset whose Hinglish word is a non-empty run
    of ASCII letters and digits, in any case, and whose replacement is a
    string without backslash, once loaded, makes the normaliser turn that
    word, as written in the dataset, into the replacement. *)
Theorem loaded_word_is_replaced :
  forall file_path hinglish hindi w,
    hinglish <> [] ->
    forallb is_ascii_alnum hinglish = true ->
    no_backslash hindi = true ->
    open_dataset file_path = Some [Some (dataset_record hinglish (JStr hindi))] ->
    HINGLISH_TO_HINDI w = [] ->
    exists w',
      load_hinglish_mapping file_path w = (Ok tt, w')
      /\ HINGLISH_TO_HINDI w' = [(str_lower hinglish, JStr hindi)]
      /\ preprocess_text (HINGLISH_TO_HINDI w') hinglish = Ok hindi.
Proof.
  intros file_path hinglish hindi w Hne Hk Hv Hopen Hlex.
  destruct (lower_key_matches hinglish Hk) as [Hlow [Hkl [Heq Hword]]].
  unfold load_hinglish_mapping. rewrite Hopen.
  eexists. split; [reflexivity |]. cbn [HINGLISH_TO_HINDI snd].
  rewrite Hlex. cbn [dict_set]. split; [reflexivity |].
  unfold preprocess_text. cbn [preprocess_items].
  assert (Hplain : plain_entry (str_lower hinglish, hindi)).
  { rewrite Hlow. repeat split; try assumption.
    simpl. destruct hinglish; [contradiction | discriminate]. }
  rewrite (re_sub_plain hinglish Hplain).
  rewrite replace_words_token by assumption. now rewrite Hlow, Heq.
Qed.

(** X18: a value that is not a str, which the loader accepts, makes the
    normaliser raise TypeError for every text as soon as its entry is
    reached, here for an entry whose key is a run of ASCII letters and
    digits. *)
Theorem non_str_value_raises :
  forall key value rest text,
    forallb is_ascii_alnum key = true ->
    (forall s, value <> JStr s) ->
    preprocess_text ((key, value) :: rest) text = Raise TypeError.
Proof.
  intros key value rest text Hk Hv. unfold preprocess_text.
  cbn [preprocess_items]. unfold re_sub, re_sub_str.
  rewrite (parse_key_pattern _ Hk). cbn [expand_template].
  destruct value as [| b | n | s | l | fields]; try reflexivity.
  exfalso. now apply (Hv s).
Qed.

(** X19: the flags [--translate] and [--noise_reduction] have no effect:
    two runs of [main] whose arguments agree on the file, the directory
    and [--recursive] do the same. *)
Theorem flags_without_effect :
  forall a a' w,
    input_file_path a = input_file_path a' ->
    input_directory_path a = input_directory_path a' ->
    recursive_flag a = recursive_flag a' ->
    main a w = main a' w.
Proof.
  intros a a' w Hf Hd Hr. unfold main. rewrite Hf, Hd, Hr. reflexivity.
Qed.

End NormaliserMore.

(** ** The properties at concrete inputs *)

Section Concrete.

#[local] Existing Instance devanagari_runtime.
#[local] Existing Instance hundredths.

(** C1, as stated, fails: with the transcript of a.wav already present the
    run still calls the recogniser and the translator. *)
Lemma existing_transcript_still_recognised :
  let CO := studio None (Ok (u "my name is")) in
  let w' := snd (process_file (u "a.wav") false done) in
  lookup (output_path (u "a.wav")) (cwd done) = Some (u "a:" ++ [newline] ++ u "my name is")
  /\ In (Recognize (u "a.wav")) (trace w')
  /\ In (Translate normalised (u "hi")) (trace w').
Proof.
  vm_compute. repeat split; auto 10.
Qed.

Lemma existing_transcript_kept_witness :
  let CO := studio None (Ok (u "my name is")) in
  let w' := snd (process_file (u "a.wav") false done) in
  cwd w' = cwd done
  /\ In (Recognize (u "a.wav")) (trace w')
  /\ In (Translate normalised (u "hi")) (trace w')
  /\ fst (process_file (u "a.wav") false done) = Ok tt.
Proof.
  intros CO.
  destruct (@existing_transcript_kept devanagari_runtime CO hundredths (u "a.wav") false
              done (u "a:" ++ [newline] ++ u "my name is") eq_refl)
    as [Hcwd [_ [_ [Hrec [Htr Hret]]]]].
  split; [exact Hcwd |]. split; [exact (Hrec eq_refl eq_refl) |]. split.
  - exact (Htr eq_refl eq_refl (u "mera naam hai") normalised (u "hi")
               eq_refl eq_refl eq_refl ltac:(discriminate) eq_refl).
  - exact (Hret (fun _ => eq_refl)).
Defined.

(** C2 at the specification's example: walking [A] without recursion. *)
Lemma process_directory_flat_raises_witness :
  let CO := studio None (Ok (u "my name is")) in
  isdir (u "A") = true
  /\ process_directory (u "A") false false fresh = (Raise TypeError, fresh).
Proof.
  intros CO. split; [reflexivity |].
  apply (@process_directory_flat_raises devanagari_runtime CO hundredths (u "A") false fresh). reflexivity.
Defined.

(** The exception is not caught on the way out of [main]. *)
Example main_flat_directory_raises :
  let CO := studio (Some [Some naam_line]) (Ok (u "my name is")) in
  fst (main {| input_file_path := None; input_directory_path := Some (u "A");
               recursive_flag := false; translate_flag := false;
               noise_reduction := false |} blank)
  = Raise TypeError.
Proof. vm_compute. reflexivity. Qed.

(** With recursion the same directory yields both transcripts. *)
Example process_directory_recursive_example :
  let CO := studio None (Raise OtherError) in
  map fst (cwd (snd (process_directory (u "A") true false fresh)))
  = [u "x-transcript.txt"; u "y-transcript.txt"].
Proof. vm_compute. reflexivity. Qed.

(** C3: the flag changes nothing, and with the flag off a transcript
    detected as "hi" is still sent to the translator and the translation is
    what gets written. *)
Theorem translate_flag_ignored :
  (forall (RT0 : PyRuntime) (CO0 : Collaborators) (CF0 : Confidence) file_path b1 b2 w,
      @process_file RT0 CO0 CF0 file_path b1 w = @process_file RT0 CO0 CF0 file_path b2 w)
  /\ (let CO := studio None (Ok (u "my name is")) in
      let w' := snd (process_file (u "a.wav") false fresh) in
      In (Translate normalised (u "hi")) (trace w')
      /\ lookup (u "a-transcript.txt") (cwd w')
         = Some (u "a:" ++ [newline] ++ u "my name is")
      /\ preprocess_text (HINGLISH_TO_HINDI fresh) (u "mera naam hai") = Ok normalised).
Proof.
  split.
  - intros. reflexivity.
  - vm_compute. repeat split; auto 10.
Qed.

(** C4, as stated, fails: one key with a parenthesis in the lexicon and
    normalisation raises, so the word "naam" of the text is not replaced. *)
Lemma metacharacter_key_raises :
  preprocess_text [(u "naam", JStr naam_hindi); (u "(", JStr (u "x"))] (u "mera naam hai")
  = Raise ReError.
Proof. vm_compute. reflexivity. Qed.

Lemma normalize_whole_words_witness :
  Forall plain_entry [(u "naam", naam_hindi)]
  /\ preprocess_text (map str_item [(u "naam", naam_hindi)]) (u "mera naam hai")
     = Ok (replace_all [(u "naam", naam_hindi)] (u "mera naam hai")).
Proof.
  assert (H : Forall plain_entry [(u "naam", naam_hindi)]).
  { repeat constructor. discriminate. }
  split; [exact H |].
  exact (proj1 (@normalize_whole_words devanagari_runtime) _ (u "mera naam hai") H).
Defined.

(** C5, as stated, fails: the translator succeeds with the empty text and
    the transcript written is the normalised text, not the translator's
    output. *)
Lemma empty_translation_not_written :
  let CO := studio None (Ok []) in
  let w' := snd (process_file (u "a.wav") true fresh) in
  translate (Log INFO :: Detect normalised :: Recognize (u "a.wav") :: trace fresh)
            normalised (u "hi") = Ok []
  /\ lookup (u "a-transcript.txt") (cwd w') = Some (u "a:" ++ [newline] ++ normalised)
  /\ lookup (u "a-transcript.txt") (cwd w') <> Some (u "a:" ++ [newline] ++ []).
Proof.
  vm_compute. repeat split. discriminate.
Qed.

Lemma translation_fallback_witness :
  let CO := studio None (Raise OtherError) in
  written (u "a.wav") true fresh normalised
  /\ lookup (u "a-transcript.txt") (cwd (snd (process_file (u "a.wav") true fresh)))
     = Some (u "a:" ++ [newline] ++ normalised)
  /\ exists w', process_file (u "a.wav") true fresh = (Ok tt, w').
Proof.
  intros CO.
  destruct (@translation_fallback devanagari_runtime CO hundredths (u "a.wav") true fresh
              (u "mera naam hai") normalised (u "hi")
              eq_refl eq_refl eq_refl ltac:(discriminate) eq_refl)
    as [Hraise [_ [_ Hret]]].
  pose (Hw := Hraise OtherError eq_refl).
  split; [exact Hw |]. split; [| exact Hret].
  exact (proj2 Hw eq_refl eq_refl eq_refl
               (conj (fun _ => eq_refl) (fun _ _ _ => eq_refl)) eq_refl eq_refl).
Defined.



(** C7, as stated, fails: a record without the Hinglish field puts the
    empty key in the lexicon. *)
Lemma empty_key_loaded :
  let CO := studio (Some [Some (JObj [])]) (Ok []) in
  load_hinglish_mapping dataset_path blank
  = (Ok tt, {| HINGLISH_TO_HINDI := [([], JStr [])]; cwd := []; trace := [] |})
  /\ ~ (forall k v, In (k, v) (HINGLISH_TO_HINDI
                                 (snd (load_hinglish_mapping dataset_path blank))) ->
                    k <> []).
Proof.
  split; [vm_compute; reflexivity |].
  intros H. apply (H [] (JStr [])); [vm_compute; auto | reflexivity].
Qed.

Lemma lexicon_keys_lower_cased_witness :
  let CO := studio (Some [Some naam_line]) (Ok []) in
  load_hinglish_mapping dataset_path blank
  = (Ok tt, {| HINGLISH_TO_HINDI := naam_lexicon; cwd := []; trace := [] |})
  /\ ((exists v0, In (u "naam", v0) (HINGLISH_TO_HINDI blank))
      \/ (exists lines line hinglish hindi,
             open_dataset dataset_path = Some lines
             /\ In line lines
             /\ fields_of line = Some (hinglish, hindi)
             /\ u "naam" = str_lower hinglish
             /\ lower_cased (u "naam"))).
Proof.
  intros CO.
  assert (Hload : load_hinglish_mapping dataset_path blank
                  = (Ok tt, {| HINGLISH_TO_HINDI := naam_lexicon; cwd := [];
                               trace := [] |})) by reflexivity.
  split; [exact Hload |].
  apply (@lexicon_keys_lower_cased devanagari_runtime CO dataset_path blank _ _ Hload
           (u "naam") (JStr naam_hindi)).
  left. reflexivity.
Defined.

Lemma lexicon_load_fatal_witness :
  let CO := studio (Some [Some naam_line; None; Some naam_line]) (Ok []) in
  exists e w1,
    load_hinglish_mapping dataset_path blank = (Raise e, w1)
    /\ main {| input_file_path := Some (u "a.wav"); input_directory_path := None;
               recursive_flag := false; translate_flag := false;
               noise_reduction := false |} blank = (Raise e, w1)
    /\ trace w1 = trace blank
    /\ cwd w1 = cwd blank.
Proof.
  intros CO.
  destruct (@lexicon_load_fatal devanagari_runtime CO hundredths
              {| input_file_path := Some (u "a.wav"); input_directory_path := None;
                 recursive_flag := false; translate_flag := false;
                 noise_reduction := false |} blank)
    as [e [w1 [Hload [Hmain [Ht [Hc _]]]]]].
  - right. exists [Some naam_line; None; Some naam_line].
    split; [reflexivity | right; left; reflexivity].
  - exists e, w1. repeat split; assumption.
Defined.

(** C10, as stated, fails: the key "a" is a letter, the value is a lone
    backslash, and normalisation raises. *)
Lemma backslash_value_raises :
  forallb is_ascii_alnum (u "a") = true
  /\ preprocess_text [(u "a", JStr (u "\"))] (u "a b") = Raise ReError.
Proof. vm_compute. split; reflexivity. Qed.

Lemma unescaped_keys_witness :
  Forall plain_entry [(u "naam", naam_hindi); (u "hai", u "h")]
  /\ preprocess_text (map str_item [(u "naam", naam_hindi); (u "hai", u "h")])
                     (u "NAAM hai")
     = Ok (replace_all [(u "naam", naam_hindi); (u "hai", u "h")] (u "NAAM hai")).
Proof.
  assert (H : Forall plain_entry [(u "naam", naam_hindi); (u "hai", u "h")]).
  { repeat constructor; discriminate. }
  split; [exact H |].
  exact (proj2 (proj1 (@unescaped_keys devanagari_runtime) _ H) (u "NAAM hai")).
Defined.

Lemma is_supported_format_spec_witness :
  In (str_lower (extension (u "clip.MP3")))
     [u ".m4a"; u ".mp3"; u ".webm"; u ".mp4"; u ".mpga"; u ".wav"; u ".mpeg"].
Proof.
  apply (proj1 (proj1 (@is_supported_format_spec devanagari_runtime) (u "clip.MP3"))).
  reflexivity.
Defined.

(** *** The further properties at concrete inputs *)

Lemma load_succeeds_iff_witness :
  let CO := studio (Some [Some naam_line; Some (JObj [])]) (Ok []) in
  exists w', load_hinglish_mapping dataset_path blank = (Ok tt, w').
Proof.
  intros CO.
  apply (proj2 (@load_succeeds_iff devanagari_runtime CO dataset_path blank)).
  exists [Some naam_line; Some (JObj [])]. split; reflexivity.
Defined.

Lemma lexicon_keys_unique_witness :
  let CO := studio (Some [Some naam_line; Some naam_line]) (Ok []) in
  exists added,
    map fst (HINGLISH_TO_HINDI (snd (load_hinglish_mapping dataset_path blank)))
    = map fst (HINGLISH_TO_HINDI blank) ++ added
    /\ NoDup (map fst (HINGLISH_TO_HINDI (snd (load_hinglish_mapping dataset_path blank)))).
Proof.
  intros CO.
  apply (@lexicon_keys_unique devanagari_runtime CO dataset_path blank).
  constructor.
Defined.

Lemma last_record_wins_witness :
  let CO := studio (Some ([Some naam_line] ++ [Some (dataset_record (u "NAAM") (JStr (u "x")))]))
                   (Ok []) in
  exists w2,
    load_hinglish_mapping dataset_path blank = (Ok tt, w2)
    /\ lookup (str_lower (u "NAAM")) (HINGLISH_TO_HINDI w2) = Some (JStr (u "x"))
    /\ (forall k, k <> str_lower (u "NAAM") ->
                  lookup k (HINGLISH_TO_HINDI w2) = lookup k naam_lexicon).
Proof.
  intros CO.
  apply (@last_record_wins devanagari_runtime CO dataset_path [Some naam_line]
           (u "NAAM") (JStr (u "x")) blank
           {| HINGLISH_TO_HINDI := naam_lexicon; cwd := []; trace := [] |});
    reflexivity.
Defined.

Lemma recognition_failure_skips_witness :
  let CO := booth (Raise UnknownValueError) (Ok (u "hi")) (Ok []) true in
  process_file (u "a.wav") false fresh =
  (Ok tt, {| HINGLISH_TO_HINDI := naam_lexicon;
             cwd := [];
             trace := [Log (level_of UnknownValueError); Recognize (u "a.wav")] |}).
Proof.
  intros CO.
  apply (@recognition_failure_skips devanagari_runtime CO hundredths
           (u "a.wav") false fresh UnknownValueError); reflexivity.
Defined.

Lemma normalisation_failure_skips_witness :
  let CO := booth (Ok (u "mera naam hai")) (Ok (u "hi")) (Ok []) true in
  process_file (u "a.wav") false poisoned =
  (Ok tt, {| HINGLISH_TO_HINDI := HINGLISH_TO_HINDI poisoned;
             cwd := [];
             trace := [Log (level_of ReError); Recognize (u "a.wav")] |}).
Proof.
  intros CO.
  apply (proj1 (@normalisation_failure_skips devanagari_runtime CO hundredths
                  (u "a.wav") false poisoned (u "mera naam hai") ReError
                  eq_refl eq_refl eq_refl)).
  reflexivity.
Defined.

Lemma english_not_translated_witness :
  let CO := booth (Ok (u "my name")) (Ok (u "en")) (Ok (u "never used")) true in
  process_file (u "a.wav") true fresh =
  (Ok tt, {| HINGLISH_TO_HINDI := naam_lexicon;
             cwd := store [] (output_path (u "a.wav"))
                          (plain_content (u "a.wav") (u "my name"));
             trace := [Log INFO; Detect (u "my name"); Recognize (u "a.wav")] |}).
Proof.
  intros CO.
  apply (@english_not_translated devanagari_runtime CO hundredths
           (u "a.wav") true fresh (u "my name") (u "my name"));
    try reflexivity.
  split; intros; reflexivity.
Defined.

Lemma translation_called_once_witness :
  let CO := studio None (Ok (u "my name is")) in
  process_file (u "a.wav") false fresh =
  (Ok tt, {| HINGLISH_TO_HINDI := naam_lexicon;
             cwd := store [] (output_path (u "a.wav"))
                          (plain_content (u "a.wav") (u "my name is"));
             trace := [Translate normalised (u "hi"); Log INFO; Detect normalised;
                       Recognize (u "a.wav")] |}).
Proof.
  intros CO.
  apply (proj1 (@translation_called_once devanagari_runtime CO hundredths
                  (u "a.wav") false fresh (u "mera naam hai") normalised (u "hi")
                  eq_refl eq_refl eq_refl eq_refl eq_refl ltac:(discriminate)
                  eq_refl eq_refl
                  (conj (fun _ => eq_refl) (fun _ _ _ => eq_refl)) eq_refl));
    reflexivity.
Defined.

Lemma partial_write_logged_witness :
  let CO := studio None (Ok []) in
  create_transcript_file (u "a.wav") [55296%N] (Some [95%N]) fresh =
  (Ok tt, {| HINGLISH_TO_HINDI := naam_lexicon;
             cwd := store [] (output_path (u "a.wav")) (u "a" ++ u ":" ++ [newline]);
             trace := [Log ERROR] |}).
Proof.
  intros CO.
  apply (proj2 (@partial_write_logged devanagari_runtime CO hundredths
                  (u "a.wav") [55296%N] (Some [95%N]) fresh eq_refl eq_refl));
    reflexivity.
Defined.

Lemma translator_construction_fatal_witness :
  let CO := bench (Raise OtherError) (Ok (u "my name is")) true in
  process_file (u "a.wav") false fresh =
  (Raise OtherError,
   {| HINGLISH_TO_HINDI := naam_lexicon;
      cwd := [];
      trace := [Log INFO; Detect normalised; Recognize (u "a.wav")] |}).
Proof.
  intros CO.
  apply (proj1 (@translator_construction_fatal devanagari_runtime CO hundredths
                  (u "a.wav") false fresh (u "mera naam hai") normalised (u "hi")
                  OtherError eq_refl eq_refl eq_refl eq_refl eq_refl
                  ltac:(discriminate) eq_refl)).
Defined.

(** The exception of the constructor is not caught on the way out of
    [main], and the closing record is not logged. *)
Example main_translator_construction_raises :
  let CO := bench (Raise OtherError) (Ok (u "my name is")) true in
  main {| input_file_path := Some (u "a.wav"); input_directory_path := None;
          recursive_flag := false; translate_flag := true;
          noise_reduction := false |} blank
  = (Raise OtherError,
     {| HINGLISH_TO_HINDI := naam_lexicon;
        cwd := [];
        trace := [Log INFO; Detect normalised; Recognize (u "a.wav")] |}).
Proof. vm_compute. reflexivity. Qed.

Lemma write_failure_logged_witness :
  let CO := booth (Ok (u "my name")) (Ok (u "en")) (Ok []) false in
  create_transcript_file (u "a.wav") (u "my name") (Some [95%N]) fresh =
  (Ok tt, {| HINGLISH_TO_HINDI := naam_lexicon; cwd := []; trace := [Log ERROR] |}).
Proof.
  intros CO.
  apply (@write_failure_logged devanagari_runtime CO hundredths
           (u "a.wav") (u "my name") (Some [95%N]) fresh); reflexivity.
Defined.

Lemma recursive_walk_returns_witness :
  let CO := studio None (Ok []) in
  (exists w', process_directory (u "A") true false fresh = (Ok tt, w'))
  /\ isdir (u "a.wav") = false
  /\ process_directory (u "a.wav") false false fresh =
     (Ok tt, {| HINGLISH_TO_HINDI := naam_lexicon; cwd := []; trace := [Log ERROR] |}).
Proof.
  intros CO. split; [| split; [reflexivity |]].
  - apply (proj1 (@recursive_walk_returns devanagari_runtime CO hundredths
                    (u "A") false fresh) (fun _ => eq_refl)).
  - apply (proj2 (@recursive_walk_returns devanagari_runtime CO hundredths
                    (u "a.wav") false fresh) eq_refl false).
Defined.

Lemma recursive_walk_reaches_all_witness :
  let CO := studio None (Ok []) in
  exists evs,
    trace (snd (process_directory (u "A") true false fresh)) = evs ++ trace fresh
    /\ (forall file_path,
           In file_path (walked_files (walk (u "A") example_tree)) ->
           is_valid_file file_path = true ->
           is_supported_format file_path = true ->
           In (Recognize file_path) evs).
Proof.
  intros CO.
  apply (proj2 (@recursive_walk_reaches_all devanagari_runtime CO hundredths
                  (u "A") example_tree false fresh eq_refl) (fun _ => eq_refl)).
Defined.

Lemma main_outcome_witness :
  let CO := studio (Some [Some naam_line]) (Ok []) in
  main {| input_file_path := None; input_directory_path := Some (u "A");
          recursive_flag := false; translate_flag := false;
          noise_reduction := false |} blank
  = (Raise TypeError, {| HINGLISH_TO_HINDI := naam_lexicon; cwd := []; trace := [] |})
  /\ exists w2 evs,
      main {| input_file_path := None; input_directory_path := Some (u "A");
              recursive_flag := true; translate_flag := false;
              noise_reduction := false |} blank = (Ok tt, w2)
      /\ trace w2 = Log INFO :: evs ++ [].
Proof.
  intros CO. split.
  - apply (proj1 (@main_outcome devanagari_runtime CO hundredths
                    {| input_file_path := None; input_directory_path := Some (u "A");
                       recursive_flag := false; translate_flag := false;
                       noise_reduction := false |} blank
                    {| HINGLISH_TO_HINDI := naam_lexicon; cwd := []; trace := [] |}
                    eq_refl)).
    reflexivity.
  - apply (proj2 (@main_outcome devanagari_runtime CO hundredths
                    {| input_file_path := None; input_directory_path := Some (u "A");
                       recursive_flag := true; translate_flag := false;
                       noise_reduction := false |} blank
                    {| HINGLISH_TO_HINDI := naam_lexicon; cwd := []; trace := [] |}
                    eq_refl) eq_refl (fun _ => eq_refl)).
Defined.

Lemma no_sep_in_x : ~ In sep (u "x").
Proof. intros [H | []]. discriminate. Qed.

Lemma no_sep_no_dot_in_wav : ~ In sep (u "WAV") /\ ~ In extsep (u "WAV").
Proof. split; intros [H | [H | [H | []]]]; discriminate. Qed.

Lemma supported_format_of_name_witness :
  is_supported_format (u "A/" ++ u "x" ++ extsep :: u "WAV")
  = existsb (fun c => negb (N.eqb c extsep)) (u "x")
    && existsb (pystr_eqb (str_lower (extsep :: u "WAV"))) SUPPORTED_FORMATS.
Proof.
  apply (@supported_format_of_name devanagari_runtime (u "A/") (u "x") (u "WAV")).
  - right. exists (u "A"). reflexivity.
  - exact no_sep_in_x.
  - exact (proj1 no_sep_no_dot_in_wav).
  - exact (proj2 no_sep_no_dot_in_wav).
Defined.

Lemma transcript_name_of_stem_witness :
  let CO := studio None (Ok []) in
  output_path (join (u "A/sub") (u "x" ++ extsep :: u "WAV")) = u "x" ++ u "-transcript.txt".
Proof.
  intros CO.
  apply (proj1 (@transcript_name_of_stem devanagari_runtime CO hundredths
                  (u "A/sub") (u "x") (u "WAV")
                  no_sep_in_x eq_refl (proj1 no_sep_no_dot_in_wav)
                  (proj2 no_sep_no_dot_in_wav))).
Defined.

Lemma confidence_tokens_witness :
  transcript_content (u "a") (u "  ") (Some [95%N]) = u "a" ++ u ":" ++ [newline] ++ u "  ".
Proof.
  apply (proj2 (proj2 (@confidence_tokens devanagari_runtime hundredths (u "  ")))).
  reflexivity.
Defined.

Lemma loaded_word_is_replaced_witness :
  let CO := studio (Some [Some (dataset_record (u "Naam") (JStr naam_hindi))]) (Ok []) in
  exists w',
    load_hinglish_mapping dataset_path blank = (Ok tt, w')
    /\ HINGLISH_TO_HINDI w' = [(str_lower (u "Naam"), JStr naam_hindi)]
    /\ preprocess_text (HINGLISH_TO_HINDI w') (u "Naam") = Ok naam_hindi.
Proof.
  intros CO.
  apply (@loaded_word_is_replaced devanagari_runtime CO dataset_path
           (u "Naam") naam_hindi blank); try reflexivity.
  discriminate.
Defined.

Lemma non_str_value_raises_witness :
  preprocess_text [(u "naam", JNum 5); (u "hai", JStr (u "x"))] (u "mera naam hai")
  = Raise TypeError.
Proof.
  apply (@non_str_value_raises devanagari_runtime (u "naam") (JNum 5)
           [(u "hai", JStr (u "x"))] (u "mera naam hai")).
  - reflexivity.
  - discriminate.
Defined.

Lemma flags_without_effect_witness :
  let CO := studio (Some [Some naam_line]) (Ok (u "my name is")) in
  main {| input_file_path := Some (u "a.wav"); input_directory_path := None;
          recursive_flag := false; translate_flag := true;
          noise_reduction := true |} blank
  = main {| input_file_path := Some (u "a.wav"); input_directory_path := None;
            recursive_flag := false; translate_flag := false;
            noise_reduction := false |} blank.
Proof.
  intros CO.
  apply (@flags_without_effect devanagari_runtime CO hundredths); reflexivity.
Defined.

End Concrete.
